(** * Checkpoint discovery and agent-to-policy mapping

    A shallow embedding of [multigrid/utils/training_utilis.py]:
    [get_checkpoint_dir], [get_policy_mapping_fn] and the module-level
    [policy_mapping_fn], together with the parts of Python ([sorted],
    [range], [print], exceptions) and of [pathlib]/[os] (globbing,
    [iterdir], [is_dir], [getmtime], [expanduser]) that they call.

    Python computations are functions of a world (the filesystem and the
    text written to standard output) that return a value or raise. *)

From Stdlib Require Import ZArith List String Ascii Bool Lia.
From Stdlib Require Import Permutation Sorted DecimalString OrdersEx.
From Stdlib Require Import RelationClasses.
From Stdlib Require DecimalPos DecimalZ Finite.
Import ListNotations.

Open Scope string_scope.
Open Scope Z_scope.
Open Scope list_scope.

(** ** Python values, exceptions and the computation monad *)

Module Py.

Inductive errno := ENOENT | ENOTDIR | EACCES.

Inductive exn :=
| TypeError
| IndexError
| ZeroDivisionError
| RuntimeError
| OSError (e : errno)
| ValueError.

Inductive result (A : Type) :=
| Ok (a : A)
| Raise (e : exn).
Arguments Ok {A} a.
Arguments Raise {A} e.

Definition rbind {A B} (r : result A) (k : A -> result B) : result B :=
  match r with
  | Ok a => k a
  | Raise e => Raise e
  end.

(** [[f(x) for x in xs]] for an [f] that may raise: left to right, the
    first exception ends the evaluation. *)
Fixpoint rmap {A B} (f : A -> result B) (xs : list A) : result (list B) :=
  match xs with
  | [] => Ok []
  | x :: xs' =>
      rbind (f x) (fun y => rbind (rmap f xs') (fun ys => Ok (y :: ys)))
  end.

(** *** [sorted]

    [sorted] is stable and compares with [<] only.  A stable sort is
    determined by its input and the order, so insertion from the right,
    which puts an element before the first one that is not smaller,
    computes what Timsort computes. *)
Section Sorted.
Context {A : Type} (lt : A -> A -> bool).

Fixpoint insert (x : A) (l : list A) : list A :=
  match l with
  | [] => [x]
  | y :: l' => if lt y x then y :: insert x l' else x :: l
  end.

Fixpoint sorted (l : list A) : list A :=
  match l with
  | [] => []
  | x :: l' => insert x (sorted l')
  end.

(** [le x y]: [y] is not smaller than [x]; what "in order" means for
    the output of [sorted]. *)
Definition le (x y : A) : Prop := lt y x = false.
End Sorted.

(** Items that carry a key compare by the key alone. *)
Definition key_ltb {A} (a b : Z * A) : bool := fst a <? fst b.

(** [sorted(xs, key=f)]: every key is computed once, in order, before
    any comparison; the items are then ordered by their keys. *)
Definition sorted_key {A} (f : A -> result Z) (xs : list A)
  : result (list A) :=
  rbind (rmap (fun x => rbind (f x) (fun k => Ok (k, x))) xs)
        (fun kxs => Ok (map snd (sorted key_ltb kxs))).

(** [len(xs)] *)
Definition len {A} (xs : list A) : Z := Z.of_nat (List.length xs).

(** [xs[i]]: a negative index counts from the end. *)
Definition index {A} (xs : list A) (i : Z) : result A :=
  let j := if i <? 0 then i + len xs else i in
  if (j <? 0) || (len xs <=? j) then Raise IndexError
  else match nth_error xs (Z.to_nat j) with
       | Some x => Ok x
       | None => Raise IndexError
       end.

(** [a % b] on integers: the result has the sign of [b], as [Z.modulo]. *)
Definition mod_ (a b : Z) : result Z :=
  if b =? 0 then Raise ZeroDivisionError else Ok (a mod b).

(** [range(n)] *)
Definition range (n : Z) : list Z := map Z.of_nat (seq 0 (Z.to_nat n)).

(** The decimal string of an integer: what [str(i)], an f-string or
    [print] makes of [i] when the conversion is carried out.  The
    limit that the interpreter puts on the conversion is in
    [Interpreter], below. *)
Definition str_int (i : Z) : string := NilZero.string_of_int (Z.to_int i).

(** Values passed through [*args] and [**kwargs]; the functions of this
    module never look at them. *)
Inductive object :=
| ONone
| OInt (i : Z)
| OStr (s : string).

Record extra := { args : list object; kwargs : list (string * object) }.

Definition no_extra : extra := {| args := []; kwargs := [] |}.

End Py.
Export Py.

(** ** The filesystem, [os] and [pathlib] *)

Module FS.

#[local] Set Warnings "-register-all".

(** A directory lists its entries in the order [os.scandir] reports
    them, which is arbitrary.  [Dangling] is an entry that is listed
    but cannot be followed (a symbolic link whose target is gone):
    [os.stat] fails on it.  A directory that is not [readable] cannot
    be listed.  A modification time is a number; only the order of the
    times matters, which is that of the floats [os.stat] reports. *)
Inductive node :=
| File (mtime : Z)
| Dir (mtime : Z) (readable : bool) (entries : list (string * node))
| Dangling.

(** [fs_cwd] is the working directory, [fs_home] the home directory of
    a user ([""] is the current user), both as names below the root. *)
Record filesystem := {
  fs_root : node;
  fs_cwd : list string;
  fs_home : string -> option (list string)
}.

(** A [pathlib.Path], of the POSIX flavour, is its [parts]: the root
    ["/"], when the path is absolute, then the names. *)
Definition Path := list string.

Fixpoint split_on (c : ascii) (s : string) : list string :=
  match s with
  | EmptyString => [EmptyString]
  | String a s' =>
      if Ascii.eqb a c then EmptyString :: split_on c s'
      else match split_on c s' with
           | [] => [String a EmptyString]
           | h :: t => String a h :: t
           end
  end.

Definition is_root (s : string) : bool :=
  (s =? "/")%string || (s =? "//")%string.

(** [Path(s)] for a string: empty and ["."] components vanish; exactly
    two leading slashes are kept as the root ["//"]. *)
Definition Path_of_str (s : string) : Path :=
  let names :=
    filter (fun c => negb ((c =? "")%string || (c =? ".")%string))
           (split_on "/" s) in
  if prefix "///" s then "/" :: names
  else if prefix "//" s then "//" :: names
  else if prefix "/" s then "/" :: names
  else names.

(** [str(p)] *)
Definition Path_str (p : Path) : string :=
  match p with
  | [] => "."
  | r :: names =>
      if is_root r then (r ++ String.concat "/" names)%string
      else String.concat "/" p
  end.

(** [p / name] for a relative one-component [name] *)
Definition joinpath (p : Path) (name : string) : Path := p ++ [name].

(** [p.parent]: a path that is only a root, or empty, is its own parent. *)
Definition parent (p : Path) : Path :=
  match p with
  | [r] => if is_root r then p else []
  | _ => removelast p
  end.

(** [p.name] *)
Definition name (p : Path) : string :=
  match p with
  | [r] => if is_root r then "" else r
  | _ => last p ""
  end.

(** Comparison of two paths is the comparison of their [parts] as
    lists of strings: the first differing component decides, by code
    points, and a proper prefix is smaller. *)
Fixpoint parts_ltb (p q : list string) : bool :=
  match p, q with
  | [], [] => false
  | [], _ :: _ => true
  | _ :: _, [] => false
  | a :: p', b :: q' =>
      match String.compare a b with
      | Lt => true
      | Gt => false
      | Eq => parts_ltb p' q'
      end
  end.

Definition lookup (c : string) (es : list (string * node)) : option node :=
  option_map snd (find (fun e => (fst e =? c)%string) es).

(** Following names down from a node.  Every name is looked up among
    the entries of the directory reached so far; [".."] is a name like
    any other, which no directory of the tree lists. *)
Fixpoint walk (n : node) (names : list string) : result node :=
  match names with
  | [] => Ok n
  | c :: names' =>
      match n with
      | Dir _ _ es =>
          match lookup c es with
          | Some n' => walk n' names'
          | None => Raise (OSError ENOENT)
          end
      | File _ => Raise (OSError ENOTDIR)
      | Dangling => Raise (OSError ENOENT)
      end
  end.

Definition absolute (fs : filesystem) (p : Path) : list string :=
  match p with
  | r :: names => if is_root r then names else fs_cwd fs ++ p
  | [] => fs_cwd fs
  end.

(** [os.stat(p)], which follows links. *)
Definition stat (fs : filesystem) (p : Path) : result node :=
  match walk (fs_root fs) (absolute fs p) with
  | Ok Dangling => Raise (OSError ENOENT)
  | r => r
  end.

(** [os.path.getmtime(p)] *)
Definition getmtime (fs : filesystem) (p : Path) : result Z :=
  rbind (stat fs p) (fun n =>
    match n with
    | File t => Ok t
    | Dir t _ _ => Ok t
    | Dangling => Raise (OSError ENOENT)
    end).

(** [p.is_dir()]: false when [p] cannot be reached. *)
Definition is_dir (fs : filesystem) (p : Path) : bool :=
  match stat fs p with
  | Ok (Dir _ _ _) => true
  | _ => false
  end.

(** [p.iterdir()] *)
Definition iterdir (fs : filesystem) (p : Path) : result (list Path) :=
  rbind (stat fs p) (fun n =>
    match n with
    | Dir _ true es => Ok (map (fun e => joinpath p (fst e)) es)
    | Dir _ false _ => Raise (OSError EACCES)
    | File _ => Raise (OSError ENOTDIR)
    | Dangling => Raise (OSError ENOENT)
    end).

(** [p.expanduser()] *)
Definition expanduser (fs : filesystem) (p : Path) : result Path :=
  match p with
  | String "~" user :: names =>
      match fs_home fs user with
      | Some home => Ok ("/" :: home ++ names)
      | None => Raise RuntimeError
      end
  | _ => Ok p
  end.

(** The last component of the pattern ["**/*.is_checkpoint"]: a name
    matches when it ends with [".is_checkpoint"]. *)
Definition ends_with (suffix s : string) : bool :=
  let n := String.length s in
  let k := String.length suffix in
  (k <=? n)%nat && (substring (n - k) k s =? suffix)%string.

Definition is_checkpoint_marker (nm : string) : bool :=
  ends_with ".is_checkpoint" nm.

(** The entries below [n] that the pattern ["**/<last>"] selects, [n]
    being the directory at path [p]: the matching entries of [n]
    itself, then those of each of its subdirectories in turn.  A
    directory that cannot be listed contributes nothing. *)
Fixpoint rglob (last_matches : string -> bool) (p : Path) (n : node)
  : list Path :=
  match n with
  | Dir _ true es =>
      map (fun e => joinpath p (fst e))
          (filter (fun e => last_matches (fst e)) es)
      ++ flat_map (fun e =>
                     match e with
                     | (nm, (Dir _ _ _) as c) =>
                         rglob last_matches (joinpath p nm) c
                     | _ => []
                     end) es
  | _ => []
  end.

(** [p.glob("**/*.is_checkpoint")]: nothing when [p] is not a
    directory. *)
Definition glob_checkpoints (fs : filesystem) (p : Path) : list Path :=
  match stat fs p with
  | Ok ((Dir _ _ _) as n) => rglob is_checkpoint_marker p n
  | _ => []
  end.

(** Induction over a tree, with the property at hand for every entry
    of a directory. *)
Fixpoint node_tree_ind (P : node -> Prop)
    (HFile : forall t, P (File t))
    (HDir : forall t r es, Forall (fun e => P (snd e)) es -> P (Dir t r es))
    (HDangling : P Dangling)
    (n : node) {struct n} : P n :=
  match n with
  | File t => HFile t
  | Dir t r es =>
      HDir t r es
        ((fix entries (l : list (string * node))
            : Forall (fun e => P (snd e)) l :=
            match l with
            | [] => Forall_nil _
            | e :: l' =>
                Forall_cons e
                  (match e as e0 return P (snd e0) with
                   | (_, c) => node_tree_ind P HFile HDir HDangling c
                   end)
                  (entries l')
            end) es)
  | Dangling => HDangling
  end.

(** [a <= b] on names, by code points: [b < a] is false. *)
Definition name_le : string -> string -> Prop := le String.ltb.

Definition is_Dir (n : node) : bool :=
  match n with
  | Dir _ _ _ => true
  | _ => false
  end.

(** The names of the entries of a directory that are directories. *)
Definition subdirectory_names (es : list (string * node)) : list string :=
  map fst (filter (fun e => is_Dir (snd e)) es).

(** [selects ok n rel]: from the directory [n], the names [rel] lead
    through directories that can be listed to an entry whose name
    satisfies [ok]. *)
Inductive selects (ok : string -> bool) : node -> list string -> Prop :=
| selects_entry t es nm c :
    In (nm, c) es -> ok nm = true ->
    selects ok (Dir t true es) [nm]
| selects_below t es nm t' r' es' rel :
    In (nm, Dir t' r' es') es ->
    selects ok (Dir t' r' es') rel ->
    selects ok (Dir t true es) (nm :: rel).

End FS.
Export FS.

(** ** Computations over the world *)

Module World.

Record world := {
  w_fs : filesystem;
  w_stdout : list string
}.

(** A computation runs in a world and leaves a world; what it has
    written stays written when it raises. *)
Definition M (A : Type) : Type := world -> result A * world.

Definition ret {A} (a : A) : M A := fun w => (Ok a, w).

Definition bind {A B} (m : M A) (k : A -> M B) : M B :=
  fun w =>
    match m w with
    | (Ok a, w') => k a w'
    | (Raise e, w') => (Raise e, w')
    end.

(** A value or exception that does not depend on the world. *)
Definition lift {A} (r : result A) : M A := fun w => (r, w).

(** A call that reads the filesystem. *)
Definition call {A} (f : filesystem -> result A) : M A :=
  fun w => (f (w_fs w), w).

(** [try: body except: handler] with a bare [except]. *)
Definition try_except {A} (body : M A) (handler : exn -> M A) : M A :=
  fun w =>
    match body w with
    | (Ok a, w') => (Ok a, w')
    | (Raise e, w') => handler e w'
    end.

(** [print(a, b, ...)]: the items separated by spaces, as one line.
    Writing to standard output is taken to succeed. *)
Definition print (items : list string) : M unit :=
  fun w =>
    (Ok tt, {| w_fs := w_fs w;
               w_stdout := w_stdout w ++ [String.concat " " items] |}).

(** [for x in xs: body] *)
Fixpoint for_each {A} (xs : list A) (body : A -> M unit) : M unit :=
  match xs with
  | [] => ret tt
  | x :: xs' => bind (body x) (fun _ => for_each xs' body)
  end.

End World.
Export World.

Declare Scope py_scope.
Delimit Scope py_scope with py.
Notation "x <- m ;; k" := (bind m (fun x => k))
  (at level 61, m at next level, right associativity) : py_scope.
Notation "m ;; k" := (bind m (fun _ => k))
  (at level 61, right associativity) : py_scope.

(** ** The module [training_utilis] *)

Module TrainingUtils.

Open Scope py_scope.

(** An argument annotated [Path | str | None]. *)
Inductive path_arg :=
| ArgNone
| ArgStr (s : string)
| ArgPath (p : Path).

(** [Path(x)]: [None] is not path-like. *)
Definition Path_new (x : path_arg) : result Path :=
  match x with
  | ArgNone => Raise TypeError
  | ArgStr s => Ok (Path_of_str s)
  | ArgPath p => Ok p
  end.

(** [x / name]: only a [Path] has the operator; [str / str] and
    [None / str] are type errors. *)
Definition truediv (x : path_arg) (nm : string) : result Path :=
  match x with
  | ArgPath p => Ok (joinpath p nm)
  | ArgStr _ => Raise TypeError
  | ArgNone => Raise TypeError
  end.

(** [str(x)] *)
Definition str_arg (x : path_arg) : string :=
  match x with
  | ArgNone => "None"
  | ArgStr s => s
  | ArgPath p => Path_str p
  end.

(** The truth value of a generator object: always true. *)
Definition generator_truth {A} (g : list A) : bool := true.

(** The body of the [try] block of [get_checkpoint_dir].  Falling
    off its end, when the [if] is not taken, returns [None]. *)
Definition get_checkpoint_dir_try (search_dir : path_arg)
  : M (option Path) :=
  root <- lift (Path_new search_dir) ;;
  root <- call (fun fs => expanduser fs root) ;;
  checkpoints <- call (fun fs => Ok (glob_checkpoints fs root)) ;;
  if generator_truth checkpoints then
    ordered <- call (fun fs => sorted_key (getmtime fs) checkpoints) ;;
    newest <- lift (index ordered (-1)) ;;
    ret (Some (parent newest))
  else ret None.

(** [get_checkpoint_dir(search_dir)]: after [except: pass] the
    function ends, which returns [None]. *)
Definition get_checkpoint_dir (search_dir : path_arg) : M (option Path) :=
  try_except (get_checkpoint_dir_try search_dir) (fun _ => ret None).

(** What [get_policy_mapping_fn] returns: a function of [agent_id]
    that accepts and ignores further arguments. *)
Definition mapping_fn : Type := Z -> extra -> result string.

(** The function [policy_mapping_fn] defined inside
    [get_policy_mapping_fn], closed over [policies]. *)
Definition policy_mapping_fn_closure (policies : list Path) : mapping_fn :=
  fun agent_id _ =>
    rbind (mod_ agent_id (len policies)) (fun i =>
    rbind (index policies i) (fun p =>
    Ok (name p))).

(** The [lambda] of the [except] branch. *)
Definition fallback_lambda : mapping_fn :=
  fun agent_id _ => Ok ("policy_" ++ str_int agent_id)%string.

(** The list bound to [policies]: the entries of
    [checkpoint_dir / "policies"] that are directories, sorted. *)
Definition policies_of (checkpoint_dir : path_arg) : M (list Path) :=
  policies_dir <- lift (truediv checkpoint_dir "policies") ;;
  paths <- call (fun fs => iterdir fs policies_dir) ;;
  dirs <- call (fun fs => Ok (filter (is_dir fs) paths)) ;;
  ret (sorted parts_ltb dirs).

(** The body of the [try] block of [get_policy_mapping_fn]. *)
Definition get_policy_mapping_fn_try (checkpoint_dir : path_arg)
    (num_agents : Z) : M mapping_fn :=
  policies <- policies_of checkpoint_dir ;;
  let policy_mapping_fn := policy_mapping_fn_closure policies in
  print ["Loading policies from:"; str_arg checkpoint_dir] ;;
  for_each (range num_agents) (fun agent_id =>
    policy_id <- lift (policy_mapping_fn agent_id no_extra) ;;
    print ["Agent ID:"; str_int agent_id; "Policy ID:"; policy_id]) ;;
  ret policy_mapping_fn.

(** [get_policy_mapping_fn(checkpoint_dir, num_agents)] *)
Definition get_policy_mapping_fn (checkpoint_dir : path_arg)
    (num_agents : Z) : M mapping_fn :=
  try_except (get_policy_mapping_fn_try checkpoint_dir num_agents)
             (fun _ => ret fallback_lambda).

(** The module-level [policy_mapping_fn(agent_id, *args, **kwargs)]. *)
Definition policy_mapping_fn (agent_id : Z) (_ : extra) : result string :=
  Ok ("policy_" ++ str_int agent_id)%string.

End TrainingUtils.
Export TrainingUtils.

(** ** Vocabulary of the specification *)

Module Spec.

(** The world after more lines were written to standard output. *)
Definition printed (w : world) (lines : list string) : world :=
  {| w_fs := w_fs w; w_stdout := w_stdout w ++ lines |}.

(** PolicyIDs: the names of the policy subdirectories, in order. *)
Definition PolicyIDs (es : list (string * node)) : list string :=
  sorted String.ltb (subdirectory_names es).

(** The cyclic assignment over a list of policy identifiers:
    [ids[agent_id mod N]]. *)
Definition cyclic (ids : list string) (agent_id : Z) : string :=
  nth (Z.to_nat (agent_id mod len ids)) ids "".

(** The diagnostic lines of [get_policy_mapping_fn]. *)
Definition loading_line (checkpoint_dir : path_arg) : string :=
  String.concat " " ["Loading policies from:"; str_arg checkpoint_dir].

Definition agent_line (ids : list string) (agent_id : Z) : string :=
  String.concat " "
    ["Agent ID:"; str_int agent_id; "Policy ID:"; cyclic ids agent_id].



(** The ["policies"] subdirectory of [d] can be listed and holds no
    directory. *)
Definition policies_empty (fs : filesystem) (d : Path) : Prop :=
  exists t es,
    stat fs (joinpath d "policies") = Ok (Dir t true es)
    /\ subdirectory_names es = [].

(** The root of a search, once the home shorthand is expanded. *)
Definition search_root (fs : filesystem) (search_dir : path_arg)
  : result Path :=
  rbind (Path_new search_dir) (expanduser fs).

(** The marker entries below a root, as names relative to it. *)
Definition marker_below (fs : filesystem) (root : Path)
    (rel : list string) : Prop :=
  exists t r es,
    stat fs root = Ok (Dir t r es)
    /\ selects is_checkpoint_marker (Dir t r es) rel.

(** The ways a search finds nothing: no root is given; the home
    directory is unknown; the root is not a directory that exists;
    there is no marker below it; a marker cannot be examined. *)
Definition search_fails (fs : filesystem) (search_dir : path_arg) : Prop :=
  search_dir = ArgNone
  \/ (exists e, search_root fs search_dir = Raise e)
  \/ exists root,
       search_root fs search_dir = Ok root
       /\ (is_dir fs root = false
           \/ (forall rel, ~ marker_below fs root rel)
           \/ (exists rel e, marker_below fs root rel
                             /\ getmtime fs (root ++ rel) = Raise e)).

(** All the ways a call of [get_policy_mapping_fn] can end: the
    function it returns and the world it leaves. *)
Inductive outcome (cd : path_arg) (n : Z) (w : world)
  : mapping_fn -> world -> Prop :=
| outcome_unlisted e :
    policies_of cd w = (Raise e, w) ->
    outcome cd n w fallback_lambda w
| outcome_empty_fallback :
    policies_of cd w = (Ok [], w) -> 0 < n ->
    outcome cd n w fallback_lambda (printed w [loading_line cd])
| outcome_empty_closure :
    policies_of cd w = (Ok [], w) -> n <= 0 ->
    outcome cd n w (policy_mapping_fn_closure [])
            (printed w [loading_line cd])
| outcome_loaded ps :
    policies_of cd w = (Ok ps, w) -> ps <> [] ->
    outcome cd n w (policy_mapping_fn_closure ps)
            (printed w (loading_line cd
                        :: map (agent_line (map name ps)) (range n))).

End Spec.
Export Spec.

(** ** A filesystem to run the functions on *)

Module Fixture.

Definition checkpoint (t : Z) (saved : list (string * node)) : node :=
  Dir t true [(".is_checkpoint", File t); ("policies", Dir t true saved)].

Definition policy : node := Dir 5 true [("policy_state.pkl", File 5)].

(** Below the home directory [/home/u], which is also the working
    directory:
    [runs/a/ckpt1] (older, policies [policy_b] and [policy_a]),
    [runs/b/ckpt2] (newer, no saved policy),
    [stale/ckpt/.is_checkpoint], a link whose target is gone,
    [fresh], with no checkpoint, and [locked], which cannot be
    listed. *)
Definition tree : node :=
  Dir 0 true
    [("home", Dir 0 true
       [("u", Dir 0 true
          [("runs", Dir 1 true
             [("a", Dir 1 true
                [("ckpt1", checkpoint 10
                   [("policy_b", policy);
                    ("notes.txt", File 7);
                    ("policy_a", policy)])]);
              ("b", Dir 1 true [("ckpt2", checkpoint 20 [])])]);
           ("stale", Dir 2 true
              [("ckpt", Dir 2 true [(".is_checkpoint", Dangling)])]);
           ("fresh", Dir 3 true [("README", File 3)]);
           ("locked", Dir 4 false
              [("ckpt", checkpoint 30 [("policy_0", policy)])])])])].

Definition fs0 : filesystem :=
  {| fs_root := tree;
     fs_cwd := ["home"; "u"];
     fs_home := fun user =>
                  if (user =? "")%string then Some ["home"; "u"] else None |}.

Definition w0 : world := {| w_fs := fs0; w_stdout := [] |}.

Definition ckpt1 : Path := ["runs"; "a"; "ckpt1"].
Definition ckpt2 : Path := ["runs"; "b"; "ckpt2"].

End Fixture.

(** ** The libraries behind [can_use_gpu] and [algorithm_config] *)

Module Rllib.

(** What the configuration functions can raise, besides the
    exceptions of the functions above: [External] stands for any
    exception raised inside a library. *)
Inductive raised :=
| NotImplementedError
| AttributeError
| External (what : string)
| Core (e : exn).

Inductive res (A : Type) :=
| Done (a : A)
| Raised (e : raised).
Arguments Done {A} a.
Arguments Raised {A} e.

Definition rthen {A B} (r : res A) (k : A -> res B) : res B :=
  match r with
  | Done a => k a
  | Raised e => Raised e
  end.

(** [try: return body] followed by [except: pass] and the rest of the
    function. *)
Definition try_return {A} (body rest : res A) : res A :=
  match body with
  | Done a => Done a
  | Raised _ => rest
  end.

(** An attribute of a module object: [None] has none. *)
Definition getattr {A} (m : option A) : res A :=
  match m with
  | Some a => Done a
  | None => Raised AttributeError
  end.

(** TensorFlow and PyTorch as far as [can_use_gpu] looks at them:
    the outcome of [tf.test.is_gpu_available()] and of
    [torch.cuda.is_available()]. *)
Record tf_module := { is_gpu_available : res bool }.
Record torch_module := { cuda_is_available : res bool }.

(** What the machine has installed.  [try_import_tf()] gives the
    triple [(tf1, tf, version)], of which only [tf] is used, and
    [try_import_torch()] the pair [(torch, nn)], of which only
    [torch] is used; each is [None] when the framework cannot be
    imported.  [randint a b] is what [random.randint(a, b)] draws. *)
Record machine := {
  try_import_tf : res (option tf_module);
  try_import_torch : res (option torch_module);
  randint : Z -> Z -> Z
}.

(** A finite float, given by a fraction it is the rounding of; it is
    zero, and so false as a condition, exactly when the numerator is. *)
Record pyfloat := { numerator : Z; denominator : positive }.

Definition float_truth (x : pyfloat) : bool := negb (numerator x =? 0).

(** A [dict] with string keys: its items in insertion order, each key
    once. *)
Definition dict : Type := list (string * object).

Fixpoint dict_get (d : dict) (k : string) : option object :=
  match d with
  | [] => None
  | (k', v) :: d' => if (k' =? k)%string then Some v else dict_get d' k
  end.

(** [d[k] = v] while a dict is built: a key that is present keeps its
    place and takes the new value, a new key goes to the end. *)
Fixpoint dict_set (d : dict) (k : string) (v : object) : dict :=
  match d with
  | [] => [(k, v)]
  | (k', v') :: d' =>
      if (k' =? k)%string then (k, v) :: d' else (k', v') :: dict_set d' k v
  end.

(** The model classes of [multigrid.rllib.models]. *)
Inductive model_class := TFModel | TorchModel | TorchLSTMModel.

(** The dictionary [model_config] returns, by its keys.  A filter is
    [[out_channels, [height, width], stride]]. *)
Record model_dict := {
  custom_model : model_class;
  custom_model_config : dict;
  conv_filters : list (Z * (Z * Z) * Z);
  fcnet_hiddens : list Z;
  post_fcnet_hiddens : list Z;
  lstm_cell_size : Z;
  max_seq_len : Z
}.

(** The [lr] argument of [training]: a value, or [NotProvided]. *)
Inductive lr_arg :=
| NotProvided
| Lr (x : pyfloat).

(** The calls on the configuration object, with their keyword
    arguments.  [policies] is a set: only membership is observed. *)
Inductive builder_call :=
| Environment (env : string) (env_config : dict)
| Framework (framework : string)
| Rollouts (num_rollout_workers : Z)
| Resources (num_gpus : Z)
| MultiAgent (policies : list string) (policy_mapping_fn : mapping_fn)
| Training (model : model_dict) (lr : lr_arg)
           (vf_loss_coeff entropy_coeff : pyfloat)
| Debugging (seed : Z).

(** The library that owns the configuration object: the default
    configuration of an algorithm,
    [get_trainable_cls(algo).get_default_config()], and what each
    call makes of a configuration. *)
Record library (config : Type) := {
  default_config : string -> res config;
  apply : config -> builder_call -> res config
}.
Arguments default_config {config} _ _.
Arguments apply {config} _ _ _.

(** A library that only keeps the calls made, in order. *)
Definition recorder : library (list builder_call) :=
  {| default_config := fun _ => Done [];
     apply := fun calls c => Done (calls ++ [c]) |}.

(** A library that only counts the calls made. *)
Definition counter : library nat :=
  {| default_config := fun _ => Done 0%nat;
     apply := fun n _ => Done (S n) |}.

(** Computations that may also write to standard output. *)
Definition W (A : Type) : Type := world -> res A * world.

Definition wret {A} (a : A) : W A := fun w => (Done a, w).

Definition wbind {A B} (m : W A) (k : A -> W B) : W B :=
  fun w =>
    match m w with
    | (Done a, w') => k a w'
    | (Raised e, w') => (Raised e, w')
    end.

Definition wlift {A} (r : res A) : W A := fun w => (r, w).

(** Running one of the functions above. *)
Definition wrun {A} (m : M A) : W A :=
  fun w =>
    match m w with
    | (Ok a, w') => (Done a, w')
    | (Raise e, w') => (Raised (Core e), w')
    end.

(** The calls of a list, made one after the other. *)
Fixpoint replay {config} (lib : library config) (calls : list builder_call)
    (c : config) : res config :=
  match calls with
  | [] => Done c
  | call :: calls' => rthen (apply lib c call) (replay lib calls')
  end.

End Rllib.

(** ** The configuration functions of [training_utilis] *)

Module Config.

Import Rllib.

(** [can_use_gpu()] *)
Definition can_use_gpu (m : machine) : res bool :=
  try_return
    (rthen (try_import_tf m) (fun tf =>
     rthen (getattr tf) is_gpu_available))
    (try_return
       (rthen (try_import_torch m) (fun torch =>
        rthen (getattr torch) cuda_is_available))
       (Done false)).

(** [model_config(framework, lstm, custom_model_config)] *)
Definition model_config (framework : string) (lstm : bool)
    (custom_model_config : dict) : res model_dict :=
  rthen
    (if (framework =? "torch")%string then
       if lstm then Done TorchLSTMModel else Done TorchModel
     else
       if lstm then Raised NotImplementedError else Done TFModel)
    (fun model =>
       Done {| custom_model := model;
               custom_model_config := custom_model_config;
               conv_filters :=
                 [(16, (3, 3), 1); (16, (1, 1), 1);
                  (32, (3, 3), 1); (32, (1, 1), 1);
                  (64, (3, 3), 1); (64, (1, 1), 1)];
               fcnet_hiddens := [64; 64];
               post_fcnet_hiddens := [];
               lstm_cell_size := 64;
               max_seq_len := 64 |}).

(** The arguments of [algorithm_config]; [more] holds the keyword
    arguments it accepts beyond the named ones. *)
Record arguments := {
  algo : string;
  env : string;
  env_config : dict;
  num_agents : Z;
  framework : string;
  lstm : bool;
  num_workers : Z;
  num_gpus : Z;
  lr : option pyfloat;
  more : dict
}.

(** The defaults of the signature. *)
Definition defaults : arguments :=
  {| algo := "PPO";
     env := "MultiGrid-Empty-8x8-v0";
     env_config := [];
     num_agents := 2;
     framework := "torch";
     lstm := false;
     num_workers := 0;
     num_gpus := 0;
     lr := None;
     more := [] |}.

(** [lr or NotProvided] *)
Definition lr_or_NotProvided (lr : option pyfloat) : lr_arg :=
  match lr with
  | Some x => if float_truth x then Lr x else NotProvided
  | None => NotProvided
  end.

(** [{f"policy_{i}" for i in range(num_agents)}] *)
Definition policy_ids (num_agents : Z) : list string :=
  map (fun i => ("policy_" ++ str_int i)%string) (range num_agents).

(** [algorithm_config(algo, env, env_config, ...)]: the merged
    [env_config] first, then the chain of calls on the default
    configuration, each with its arguments evaluated just before
    it. *)
Definition algorithm_config {config} (lib : library config) (m : machine)
    (a : arguments) : W config :=
  let env_config := dict_set (env_config a) "agents" (OInt (num_agents a)) in
  wbind (wlift (default_config lib (algo a))) (fun c =>
  wbind (wlift (apply lib c (Environment (env a) env_config))) (fun c =>
  wbind (wlift (apply lib c (Framework (framework a)))) (fun c =>
  wbind (wlift (apply lib c (Rollouts (num_workers a)))) (fun c =>
  wbind (wlift (can_use_gpu m)) (fun gpu =>
  wbind (wlift (apply lib c
                  (Resources (if gpu then num_gpus a else 0)))) (fun c =>
  let policies := policy_ids (num_agents a) in
  wbind (wrun (get_policy_mapping_fn ArgNone (num_agents a))) (fun pmf =>
  wbind (wlift (apply lib c (MultiAgent policies pmf))) (fun c =>
  wbind (wlift (model_config (framework a) (lstm a) [])) (fun model =>
  wbind (wlift (apply lib c
                  (Training model (lr_or_NotProvided (lr a))
                     {| numerator := 5; denominator := 10 |}
                     {| numerator := 1; denominator := 1000 |}))) (fun c =>
  let seed := randint m 0 1000000 in
  wlift (apply lib c (Debugging seed)))))))))))).

(** The calls [algorithm_config] makes, as the recording library
    sees them. *)
Definition calls_made (m : machine) (a : arguments)
  : W (list builder_call) :=
  algorithm_config recorder m a.

(** The calls made before [model_config] is evaluated, given the
    answer of [can_use_gpu] and the mapping function obtained, and the
    calls made after it, given the model and the seed drawn. *)
Definition calls_before_model (a : arguments) (gpu : bool)
    (pmf : mapping_fn) : list builder_call :=
  [Environment (env a)
     (dict_set (env_config a) "agents" (OInt (num_agents a)));
   Framework (framework a);
   Rollouts (num_workers a);
   Resources (if gpu then num_gpus a else 0);
   MultiAgent (policy_ids (num_agents a)) pmf].

Definition calls_after_model (a : arguments) (model : model_dict)
    (seed : Z) : list builder_call :=
  [Training model (lr_or_NotProvided (lr a))
     {| numerator := 5; denominator := 10 |}
     {| numerator := 1; denominator := 1000 |};
   Debugging seed].

(** A framework is imported and answers the question with [b]. *)
Definition tf_answers (m : machine) (b : bool) : Prop :=
  exists tf, try_import_tf m = Done (Some tf)
             /\ is_gpu_available tf = Done b.

Definition torch_answers (m : machine) (b : bool) : Prop :=
  exists torch, try_import_torch m = Done (Some torch)
                /\ cuda_is_available torch = Done b.

(** One of the frameworks that can be imported reports a GPU. *)
Definition reports_gpu (m : machine) : Prop :=
  (exists tf, try_import_tf m = Done (Some tf)
              /\ is_gpu_available tf = Done true)
  \/ (exists torch, try_import_torch m = Done (Some torch)
                    /\ cuda_is_available torch = Done true).

(** A machine for the examples: TensorFlow is installed without GPU
    support, PyTorch sees a GPU. *)
Definition tf_cpu_torch_gpu : machine :=
  {| try_import_tf := Done (Some {| is_gpu_available := Done false |});
     try_import_torch := Done (Some {| cuda_is_available := Done true |});
     randint := fun a b => b |}.

(** A machine with PyTorch only, and a GPU. *)
Definition torch_gpu : machine :=
  {| try_import_tf := Done None;
     try_import_torch := Done (Some {| cuda_is_available := Done true |});
     randint := fun a b => a |}.

End Config.

(** ** Trees as a filesystem keeps them *)

Module Tree.

Fixpoint distinct (l : list string) : bool :=
  match l with
  | [] => true
  | a :: l' => negb (existsb (String.eqb a) l') && distinct l'
  end.

(** Every directory of the tree lists each name once, and no entry
    is named like a root. *)
Fixpoint well_formed (n : node) : bool :=
  match n with
  | Dir _ _ es =>
      distinct (map fst es)
      && forallb (fun e => negb (is_root (fst e))) es
      && forallb (fun e => match e with (_, c) => well_formed c end) es
  | _ => true
  end.

(** A checkpoint directory with the policies [policy_0] to
    [policy_{N-1}] saved, as the only thing in the working
    directory. *)
Definition saved (N : Z) : list (string * node) :=
  map (fun nm => (nm, Dir 0 true [])) (Config.policy_ids N).

Definition with_saved (N : Z) : world :=
  {| w_fs :=
       {| fs_root :=
            Dir 0 true
              [("ckpt", Dir 0 true
                 [(".is_checkpoint", File 0);
                  ("policies", Dir 0 true (saved N))])];
          fs_cwd := [];
          fs_home := fun _ => None |};
     w_stdout := [] |}.

End Tree.

(** ** The limit on converting integers to strings *)

Module Interpreter.

(** CPython, from 3.10.7 and 3.11 on, converts an integer to its
    decimal string only if it has no more digits than
    [sys.get_int_max_str_digits()], and raises [ValueError]
    otherwise.  The limit is 4300 unless it is configured; the
    setting 0 turns it off, and no other setting is below 640.  The
    embedding of [get_policy_mapping_fn] above takes every conversion
    to succeed; this module embeds the function again, with the
    conversions as an interpreter with the limit [limit] makes
    them. *)
Definition default_max_str_digits : Z := 4300.

(** [i] has more than [limit] decimal digits, the sign not counted. *)
Definition more_digits_than (limit i : Z) : bool := 10 ^ limit <=? Z.abs i.

(** [str(i)], as it is called for an integer in an f-string and by
    [print]. *)
Definition format_int (limit i : Z) : result string :=
  if (0 <? limit) && more_digits_than limit i then Raise ValueError
  else Ok (str_int i).

(** An argument of [print]: a string, or an integer still to be
    converted. *)
Inductive printable :=
| PStr (s : string)
| PInt (i : Z).

Definition to_text (limit : Z) (x : printable) : result string :=
  match x with
  | PStr s => Ok s
  | PInt i => format_int limit i
  end.

(** What [print] writes for its arguments: each is converted when its
    turn comes, after the separator has been written, so that an
    argument that cannot be converted leaves the text before it. *)
Fixpoint write_items (limit : Z) (items : list printable)
  : string * option exn :=
  match items with
  | [] => ("", None)
  | x :: rest =>
      match to_text limit x with
      | Raise e => ("", Some e)
      | Ok s =>
          match rest with
          | [] => (s, None)
          | _ :: _ =>
              let (t, e) := write_items limit rest in
              ((s ++ " " ++ t)%string, e)
          end
      end
  end.

(** [print(a, b, ...)]: one line; when it raises, the text written so
    far, if there is any, stays on standard output as a line that is
    not ended. *)
Definition print (limit : Z) (items : list printable) : M unit :=
  fun w =>
    match write_items limit items with
    | (t, None) =>
        (Ok tt, {| w_fs := w_fs w; w_stdout := w_stdout w ++ [t] |})
    | (t, Some e) =>
        (Raise e,
         if (t =? "")%string then w
         else {| w_fs := w_fs w; w_stdout := w_stdout w ++ [t] |})
    end.

(** The [lambda] of the [except] branch. *)
Definition fallback_lambda (limit : Z) : mapping_fn :=
  fun agent_id _ =>
    rbind (format_int limit agent_id) (fun s =>
    Ok ("policy_" ++ s)%string).

(** The body of the [try] block of [get_policy_mapping_fn]. *)
Definition get_policy_mapping_fn_try (limit : Z) (checkpoint_dir : path_arg)
    (num_agents : Z) : M mapping_fn :=
  bind (policies_of checkpoint_dir) (fun policies =>
  let policy_mapping_fn := policy_mapping_fn_closure policies in
  bind (print limit [PStr "Loading policies from:";
                     PStr (str_arg checkpoint_dir)]) (fun _ =>
  bind (for_each (range num_agents) (fun agent_id =>
          bind (lift (policy_mapping_fn agent_id no_extra)) (fun policy_id =>
          print limit [PStr "Agent ID:"; PInt agent_id;
                       PStr "Policy ID:"; PStr policy_id]))) (fun _ =>
  ret policy_mapping_fn))).

(** [get_policy_mapping_fn(checkpoint_dir, num_agents)] *)
Definition get_policy_mapping_fn (limit : Z) (checkpoint_dir : path_arg)
    (num_agents : Z) : M mapping_fn :=
  try_except (get_policy_mapping_fn_try limit checkpoint_dir num_agents)
             (fun _ => ret (fallback_lambda limit)).

(** The module-level [policy_mapping_fn(agent_id, *args, **kwargs)]. *)
Definition policy_mapping_fn (limit : Z) (agent_id : Z) (_ : extra)
  : result string :=
  rbind (format_int limit agent_id) (fun s => Ok ("policy_" ++ s)%string).

End Interpreter.

(** * Properties *)

(** ** Python's [sorted], indexing and [range] *)

Module PyFacts.

Section SortedFacts.
Context {A : Type} (lt : A -> A -> bool).

Lemma insert_perm (x : A) (l : list A) :
  Permutation (insert lt x l) (x :: l).
Proof.
  induction l as [|y l IH]; simpl.
  - apply Permutation_refl.
  - destruct (lt y x).
    + eapply perm_trans; [apply perm_skip, IH | apply perm_swap].
    + apply Permutation_refl.
Qed.

Lemma sorted_perm (l : list A) : Permutation (sorted lt l) l.
Proof.
  induction l as [|x l IH]; simpl.
  - constructor.
  - eapply perm_trans; [apply insert_perm | apply perm_skip, IH].
Qed.

Lemma sorted_nil_inv (l : list A) : sorted lt l = [] -> l = [].
Proof.
  intros H. apply Permutation_nil.
  rewrite <- H. apply sorted_perm.
Qed.

Hypothesis lt_asym : forall x y, lt x y = true -> lt y x = false.
Hypothesis le_trans : forall x y z, le lt x y -> le lt y z -> le lt x z.

Lemma insert_sorted (x : A) (l : list A) :
  StronglySorted (le lt) l -> StronglySorted (le lt) (insert lt x l).
Proof.
  induction 1 as [|y l Hl IH Hy]; simpl.
  - repeat constructor.
  - destruct (lt y x) eqn:Hyx.
    + constructor; [exact IH|].
      apply Forall_forall. intros z Hz.
      apply (Permutation_in _ (insert_perm x l)) in Hz.
      destruct Hz as [<- | Hz].
      * apply lt_asym, Hyx.
      * rewrite Forall_forall in Hy. apply Hy, Hz.
    + constructor; [constructor; assumption|].
      constructor; [exact Hyx|].
      apply Forall_forall. intros z Hz.
      rewrite Forall_forall in Hy.
      apply le_trans with y; [exact Hyx | apply Hy, Hz].
Qed.

Lemma sorted_sorted (l : list A) : StronglySorted (le lt) (sorted lt l).
Proof.
  induction l as [|x l IH]; simpl.
  - constructor.
  - apply insert_sorted, IH.
Qed.

Hypothesis le_refl : forall x, le lt x x.

(** The last element of an ordered list is a greatest one. *)
Lemma sorted_last_greatest (l : list A) (d x : A) :
  StronglySorted (le lt) l -> In x l -> le lt x (last l d).
Proof.
  induction 1 as [|y l Hl IH Hy]; intros Hx.
  - destruct Hx.
  - destruct l as [|z l'].
    + destruct Hx as [<- | []]. apply le_refl.
    + change (last (y :: z :: l') d) with (last (z :: l') d).
      destruct Hx as [<- | Hx].
      * rewrite Forall_forall in Hy. apply Hy.
        destruct (@exists_last _ (z :: l')) as (l0 & a & E);
          [discriminate|].
        rewrite E, last_last. apply in_or_app. right. left. reflexivity.
      * apply IH, Hx.
Qed.
End SortedFacts.

(** A sort commutes with a map that preserves the order. *)
Lemma sorted_map {A B} (ltA : A -> A -> bool) (ltB : B -> B -> bool)
      (f : A -> B) :
  (forall x y, ltB (f x) (f y) = ltA x y) ->
  forall l, sorted ltB (map f l) = map f (sorted ltA l).
Proof.
  intros Hf.
  assert (Hins : forall x l,
             insert ltB (f x) (map f l) = map f (insert ltA x l)).
  { intros x l. induction l as [|y l IH]; simpl; [reflexivity|].
    rewrite Hf. destruct (ltA y x); simpl; [rewrite IH|]; reflexivity. }
  induction l as [|x l IH]; simpl; [reflexivity|].
  rewrite IH. apply Hins.
Qed.

Lemma rmap_ok_length {A B} (f : A -> result B) (xs : list A) (ys : list B) :
  rmap f xs = Ok ys -> List.length ys = List.length xs.
Proof.
  revert ys. induction xs as [|x xs IH]; simpl; intros ys H.
  - inversion H. reflexivity.
  - destruct (f x); simpl in H; [|discriminate].
    destruct (rmap f xs); simpl in H; [|discriminate].
    inversion H. simpl. f_equal. apply IH. reflexivity.
Qed.

Lemma rmap_ok_in {A B} (f : A -> result B) (xs : list A) (ys : list B) :
  rmap f xs = Ok ys ->
  forall y, In y ys <-> exists x, In x xs /\ f x = Ok y.
Proof.
  revert ys. induction xs as [|x xs IH]; simpl; intros ys H y.
  - inversion H. simpl. split; [tauto | intros (?&[]&_)].
  - destruct (f x) as [b|] eqn:Hx; simpl in H; [|discriminate].
    destruct (rmap f xs) as [bs|]; simpl in H; [|discriminate].
    inversion H; subst ys. simpl. rewrite (IH bs eq_refl y). split.
    + intros [<- | (x' & Hin & Hy)]; eauto.
    + intros (x' & [<- | Hin] & Hy); [left; congruence | right; eauto].
Qed.

Lemma rmap_ok_all {A B} (f : A -> result B) (xs : list A) :
  (forall x, In x xs -> exists y, f x = Ok y) ->
  exists ys, rmap f xs = Ok ys.
Proof.
  induction xs as [|x xs IH]; simpl; intros H; [eauto|].
  destruct (H x (or_introl eq_refl)) as (y & ->). simpl.
  destruct IH as (ys & ->); [intros; apply H; auto|]. simpl. eauto.
Qed.

Lemma rmap_ok_inv {A B} (f : A -> result B) (xs : list A) (ys : list B) :
  rmap f xs = Ok ys -> forall x, In x xs -> exists y, f x = Ok y.
Proof.
  revert ys. induction xs as [|x' xs IH]; simpl; intros ys H x Hx;
    [destruct Hx|].
  destruct (f x') as [y'|] eqn:Hf; simpl in H; [|discriminate].
  destruct (rmap f xs) as [ys'|]; simpl in H; [|discriminate].
  destruct Hx as [<- | Hx]; [eauto | apply (IH ys' eq_refl x Hx)].
Qed.

Lemma rmap_raise_inv {A B} (f : A -> result B) (xs : list A) (e : exn) :
  rmap f xs = Raise e -> exists x, In x xs /\ f x = Raise e.
Proof.
  induction xs as [|x xs IH]; simpl; intros H; [discriminate|].
  destruct (f x) as [y|e'] eqn:Hf; simpl in H.
  - destruct (rmap f xs) as [ys|e'']; simpl in H; [discriminate|].
    inversion H; subst e''. destruct (IH eq_refl) as (x' & Hin & Hx').
    eauto.
  - inversion H; subst e'. eauto.
Qed.


Lemma index_last_eq {A} (xs : list A) (d : A) :
  xs <> [] -> index xs (-1) = Ok (last xs d).
Proof.
  intros Hne. destruct (@exists_last _ xs Hne) as (l & a & ->).
  unfold index, len. rewrite last_last, length_app. cbn [List.length].
  change (-1 <? 0) with true. cbv beta iota zeta.
  replace (-1 + Z.of_nat (List.length l + 1))
    with (Z.of_nat (List.length l)) by lia.
  assert (E1 : (Z.of_nat (List.length l) <? 0) = false)
    by (apply Z.ltb_ge; lia).
  assert (E2 : (Z.of_nat (List.length l + 1) <=? Z.of_nat (List.length l))
               = false) by (apply Z.leb_gt; lia).
  rewrite E1, E2. cbn [orb].
  rewrite Nat2Z.id, nth_error_app2, Nat.sub_diag by lia.
  reflexivity.
Qed.

Lemma index_in_range {A} (xs : list A) (i : Z) (d : A) :
  0 <= i < len xs -> index xs i = Ok (nth (Z.to_nat i) xs d).
Proof.
  unfold index, len. intros Hi.
  assert (E1 : (i <? 0) = false) by (apply Z.ltb_ge; lia).
  assert (E2 : (Z.of_nat (List.length xs) <=? i) = false)
    by (apply Z.leb_gt; lia).
  cbv zeta. rewrite E1, E1, E2. cbn [orb].
  destruct (nth_error xs (Z.to_nat i)) as [x|] eqn:E.
  - rewrite (nth_error_nth _ _ d E). reflexivity.
  - apply nth_error_None in E. lia.
Qed.

Lemma range_nonpos (n : Z) : n <= 0 -> range n = [].
Proof.
  intros H. unfold range.
  replace (Z.to_nat n) with 0%nat by lia. reflexivity.
Qed.

Lemma range_pos (n : Z) : 0 < n -> exists tl, range n = 0 :: tl.
Proof.
  intros H. unfold range.
  destruct (Z.to_nat n) as [|k] eqn:E; [lia|].
  simpl. eauto.
Qed.

End PyFacts.

(** ** Strings, paths and the filesystem *)

Module FSFacts.

Lemma compare_as_OT (a b : string) :
  String.compare a b = String_as_OT.compare a b.
Proof.
  revert b. induction a as [|c a IH]; destruct b as [|c' b]; reflexivity.
Qed.

Lemma compare_refl (a : string) : String.compare a a = Eq.
Proof.
  rewrite compare_as_OT.
  destruct (String_as_OT.compare_spec a a) as [_|H|H];
    [reflexivity | | ]; exfalso; revert H; apply irreflexivity.
Qed.

Lemma compare_lt_trans (a b c : string) :
  String.compare a b = Lt -> String.compare b c = Lt ->
  String.compare a c = Lt.
Proof.
  rewrite !compare_as_OT. intros H1 H2.
  exact (@transitivity _ _ (@StrictOrder_Transitive _ _
           String_as_OT.lt_strorder) a b c H1 H2).
Qed.

Lemma ltb_asym (a b : string) : String.ltb a b = true -> String.ltb b a = false.
Proof.
  unfold String.ltb. rewrite (String.compare_antisym a b).
  destruct (String.compare b a); simpl; congruence.
Qed.

Lemma ltb_irrefl (a : string) : String.ltb a a = false.
Proof. unfold String.ltb. rewrite compare_refl. reflexivity. Qed.

Lemma name_le_trans (a b c : string) :
  name_le a b -> name_le b c -> name_le a c.
Proof.
  unfold name_le, Py.le, String.ltb. intros Hab Hbc.
  destruct (String.compare c a) eqn:Hca; try reflexivity. exfalso.
  destruct (String.compare b a) eqn:Hba; try discriminate.
  - apply String.compare_eq_iff in Hba. subst b.
    rewrite Hca in Hbc. discriminate.
  - destruct (String.compare c b) eqn:Hcb; try discriminate.
    + apply String.compare_eq_iff in Hcb. subst c.
      rewrite Hca in Hba. discriminate.
    + rewrite String.compare_antisym in Hba, Hcb.
      destruct (String.compare a b) eqn:Hab'; try discriminate.
      destruct (String.compare b c) eqn:Hbc'; try discriminate.
      rewrite String.compare_antisym in Hca.
      rewrite (compare_lt_trans _ _ _ Hab' Hbc') in Hca. discriminate.
Qed.

Lemma name_le_antisym (a b : string) : name_le a b -> name_le b a -> a = b.
Proof.
  unfold name_le, Py.le, String.ltb. intros Hab Hba.
  destruct (String.compare a b) eqn:E; try discriminate.
  - apply String.compare_eq_iff, E.
  - rewrite String.compare_antisym, E in Hab. discriminate.
Qed.

(** Sorting names gives an ordered rearrangement. *)
Lemma sorted_names_sorted (l : list string) :
  StronglySorted name_le (sorted String.ltb l).
Proof.
  apply PyFacts.sorted_sorted; [exact ltb_asym | exact name_le_trans].
Qed.

(** An ordered list of distinct names is determined by its elements. *)
Lemma sorted_names_unique (l1 l2 : list string) :
  StronglySorted name_le l1 -> StronglySorted name_le l2 ->
  NoDup l1 -> Permutation l1 l2 -> l1 = l2.
Proof.
  intros S1. revert l2. induction S1 as [|a l1 S1 IH Ha]; intros l2 S2 N1 P.
  - apply Permutation_nil in P. congruence.
  - destruct S2 as [|b l2 S2 Hb].
    + apply Permutation_sym, Permutation_nil in P. discriminate.
    + inversion N1 as [|? ? Hnotin N1']; subst.
      rewrite Forall_forall in Ha, Hb.
      assert (a = b) as <-.
      { assert (Ia : In a (b :: l2))
          by (apply (Permutation_in _ P); left; reflexivity).
        assert (Ib : In b (a :: l1))
          by (apply (Permutation_in _ (Permutation_sym P)); left;
              reflexivity).
        destruct Ia as [E | Ia]; [congruence|].
        destruct Ib as [E | Ib]; [congruence|].
        apply name_le_antisym; [apply Ha, Ib | apply Hb, Ia]. }
      f_equal. apply IH; [exact S2 | exact N1' |].
      apply Permutation_cons_inv with a, P.
Qed.

(** The order in which a directory lists its entries does not show
    in the sorted names. *)
Lemma sorted_names_order_independent (l1 l2 : list string) :
  NoDup l1 -> Permutation l1 l2 ->
  sorted String.ltb l1 = sorted String.ltb l2.
Proof.
  intros N P.
  apply sorted_names_unique; try apply sorted_names_sorted.
  - apply (Permutation_NoDup (Permutation_sym (PyFacts.sorted_perm _ l1))), N.
  - eapply perm_trans; [apply PyFacts.sorted_perm|].
    eapply perm_trans; [exact P|].
    apply Permutation_sym, PyFacts.sorted_perm.
Qed.

(** Paths with the same parent compare as their names do. *)
Lemma parts_ltb_siblings (p : Path) (a b : string) :
  parts_ltb (joinpath p a) (joinpath p b) = String.ltb a b.
Proof.
  unfold joinpath. induction p as [|c p IH]; simpl.
  - unfold String.ltb. destruct (String.compare a b); reflexivity.
  - rewrite compare_refl. exact IH.
Qed.

Lemma sorted_siblings (p : Path) (names : list string) :
  sorted parts_ltb (map (joinpath p) names)
  = map (joinpath p) (sorted String.ltb names).
Proof. apply PyFacts.sorted_map. intros. apply parts_ltb_siblings. Qed.

Lemma name_joinpath (p : Path) (nm : string) :
  p <> [] -> name (joinpath p nm) = nm.
Proof.
  unfold joinpath. intros Hp.
  destruct p as [|a [|b p]]; [congruence | reflexivity |].
  change (name ((a :: b :: p) ++ [nm]))
    with (last ((a :: b :: p) ++ [nm]) "").
  apply last_last.
Qed.

End FSFacts.

Module TreeFacts.

Lemma walk_app (n : node) (a b : list string) :
  walk n (a ++ b) = rbind (walk n a) (fun m => walk m b).
Proof.
  revert n. induction a as [|c a IH]; intros n; simpl; [reflexivity|].
  destruct n as [t|t r es|]; try reflexivity.
  destruct (lookup c es); [apply IH | reflexivity].
Qed.

Lemma absolute_joinpath (fs : filesystem) (p : Path) (nm : string) :
  p <> [] -> absolute fs (joinpath p nm) = absolute fs p ++ [nm].
Proof.
  unfold joinpath, absolute. destruct p as [|r p]; [congruence|]. intros _.
  simpl. destruct (is_root r); [reflexivity|].
  rewrite <- app_assoc. reflexivity.
Qed.

Lemma stat_Dir_walk (fs : filesystem) (p : Path) t r es :
  stat fs p = Ok (Dir t r es) ->
  walk (fs_root fs) (absolute fs p) = Ok (Dir t r es).
Proof.
  unfold stat. destruct (walk (fs_root fs) (absolute fs p)) as [[]|];
    congruence.
Qed.

(** What [stat] finds at an entry of a directory. *)
Lemma stat_child (fs : filesystem) (p : Path) (nm : string) t r es :
  p <> [] -> stat fs p = Ok (Dir t r es) ->
  stat fs (joinpath p nm)
  = match lookup nm es with
    | Some Dangling | None => Raise (OSError ENOENT)
    | Some n => Ok n
    end.
Proof.
  intros Hp Hs. apply stat_Dir_walk in Hs.
  unfold stat. rewrite absolute_joinpath, walk_app, Hs by exact Hp.
  simpl. destruct (lookup nm es) as [[]|]; reflexivity.
Qed.

Lemma is_dir_child (fs : filesystem) (p : Path) (nm : string) t r es :
  p <> [] -> stat fs p = Ok (Dir t r es) ->
  is_dir fs (joinpath p nm)
  = match lookup nm es with
    | Some n => is_Dir n
    | None => false
    end.
Proof.
  intros Hp Hs. unfold is_dir. rewrite (stat_child _ _ _ _ _ _ Hp Hs).
  destruct (lookup nm es) as [[]|]; reflexivity.
Qed.

Lemma lookup_distinct (es : list (string * node)) nm c :
  NoDup (map fst es) -> In (nm, c) es -> lookup nm es = Some c.
Proof.
  unfold lookup. induction es as [|[nm' c'] es IH]; simpl; intros N H.
  - destruct H.
  - inversion N as [|? ? Hnot N']; subst.
    destruct (String.eqb_spec nm' nm) as [->|Hne].
    + destruct H as [H|H]; [inversion H; reflexivity|].
      exfalso. apply Hnot. apply (in_map fst) in H. exact H.
    + destruct H as [H|H]; [inversion H; congruence|]. apply IH; assumption.
Qed.

(** Filtering the listed paths of a directory with [is_dir] keeps the
    entries that are directories. *)
Lemma filter_is_dir_entries (fs : filesystem) (p : Path) t r es :
  p <> [] -> stat fs p = Ok (Dir t r es) -> NoDup (map fst es) ->
  filter (is_dir fs) (map (fun e => joinpath p (fst e)) es)
  = map (joinpath p) (subdirectory_names es).
Proof.
  intros Hp Hs N. unfold subdirectory_names.
  assert (H : forall l, incl l es ->
    filter (is_dir fs) (map (fun e => joinpath p (fst e)) l)
    = map (joinpath p) (map fst (filter (fun e => is_Dir (snd e)) l))).
  { induction l as [|[nm c] l IH]; intros Hincl; simpl; [reflexivity|].
    rewrite (is_dir_child _ _ _ _ _ _ Hp Hs).
    rewrite (lookup_distinct es nm c N) by (apply Hincl; left; reflexivity).
    rewrite IH by (intros x Hx; apply Hincl; right; exact Hx).
    destruct (is_Dir c); reflexivity. }
  apply H, incl_refl.
Qed.

(** The paths that the recursive pattern yields are those that
    [selects] describes. *)
Lemma rglob_selects (ok : string -> bool) (n : node) :
  forall (p q : Path),
    In q (rglob ok p n) <-> exists rel, q = p ++ rel /\ selects ok n rel.
Proof.
  induction n as [t|t r es IH|] using node_tree_ind; intros p q.
  - simpl. split; [tauto | intros (rel & _ & H); inversion H].
  - destruct r.
    2:{ simpl. split; [tauto | intros (rel & _ & H); inversion H]. }
    cbn [rglob]. rewrite in_app_iff, in_map_iff, in_flat_map. split.
    + intros [((nm, c) & <- & Hin) | ((nm, c) & Hin & Hq)].
      * apply filter_In in Hin. destruct Hin as [Hin Hok].
        exists [nm]. split; [reflexivity|].
        apply selects_entry with c; assumption.
      * destruct c as [|t' r' es'|]; try destruct Hq.
        rewrite Forall_forall in IH.
        apply (IH _ Hin) in Hq. destruct Hq as (rel & -> & Hsel).
        exists (nm :: rel). split.
        -- unfold joinpath. rewrite <- app_assoc. reflexivity.
        -- apply selects_below with t' r' es'; assumption.
    + intros (rel & -> & Hsel).
      inversion Hsel as [? ? nm c Hin Hok | ? ? nm t' r' es' rel' Hin Hsel'];
        subst.
      * left. exists (nm, c). split; [reflexivity|].
        apply filter_In. split; assumption.
      * right. exists (nm, Dir t' r' es'). split; [exact Hin|].
        rewrite Forall_forall in IH.
        apply (IH _ Hin). exists rel'. split; [|exact Hsel'].
        unfold joinpath. rewrite <- app_assoc. reflexivity.
  - simpl. split; [tauto | intros (rel & _ & H); inversion H].
Qed.

Lemma glob_checkpoints_selects (fs : filesystem) (p : Path) t r es :
  stat fs p = Ok (Dir t r es) ->
  forall q, In q (glob_checkpoints fs p)
            <-> exists rel, q = p ++ rel
                            /\ selects is_checkpoint_marker (Dir t r es) rel.
Proof.
  intros Hs q. unfold glob_checkpoints. rewrite Hs. apply rglob_selects.
Qed.


End TreeFacts.

(** ** [get_checkpoint_dir] *)

Module CheckpointFacts.

Lemma last_of_map {A B} (f : A -> B) (l : list A) (d : A) :
  last (map f l) (f d) = f (last l d).
Proof.
  induction l as [|x l IH]; [reflexivity|].
  destruct l as [|y l]; [reflexivity|]. exact IH.
Qed.

Lemma last_in {A} (l : list A) (d : A) : l <> [] -> In (last l d) l.
Proof.
  intros H. destruct (@exists_last _ l H) as (l' & a & ->).
  rewrite last_last. apply in_or_app. right. left. reflexivity.
Qed.

Lemma key_ltb_asym {A} (a b : Z * A) :
  key_ltb a b = true -> key_ltb b a = false.
Proof.
  unfold key_ltb. intros H. apply Z.ltb_lt in H. apply Z.ltb_ge. lia.
Qed.

Lemma key_le_trans {A} (a b c : Z * A) :
  le key_ltb a b -> le key_ltb b c -> le key_ltb a c.
Proof.
  unfold le, key_ltb. rewrite !Z.ltb_ge. lia.
Qed.

Lemma key_le_refl {A} (a : Z * A) : le key_ltb a a.
Proof. unfold le, key_ltb. apply Z.ltb_irrefl. Qed.

(** [sorted(xs, key=f)[-1]] is an item of [xs] with a greatest key,
    provided [xs] is not empty and every key can be computed. *)
Lemma sorted_key_last {A} (f : A -> result Z) (xs : list A) :
  xs <> [] ->
  (forall x, In x xs -> exists k, f x = Ok k) ->
  exists m k,
    In m xs /\ f m = Ok k
    /\ (forall x k', In x xs -> f x = Ok k' -> k' <= k)
    /\ rbind (sorted_key f xs) (fun ordered => index ordered (-1)) = Ok m.
Proof.
  intros Hne Hall.
  set (g := fun x => rbind (f x) (fun k => Ok (k, x))).
  destruct (PyFacts.rmap_ok_all g xs) as (kxs & Hkxs).
  { intros x Hx. destruct (Hall x Hx) as (k & Hk).
    exists (k, x). unfold g. rewrite Hk. reflexivity. }
  assert (Hin : forall k x, In (k, x) kxs <-> In x xs /\ f x = Ok k).
  { intros k x. rewrite (PyFacts.rmap_ok_in g xs kxs Hkxs). unfold g. split.
    - intros (x' & Hx' & E). destruct (f x') as [k'|] eqn:Hf; simpl in E;
        [|discriminate].
      inversion E; subst. auto.
    - intros (Hx & Hf). exists x. rewrite Hf. auto. }
  destruct xs as [|x0 xs']; [congruence|].
  destruct (Hall x0 (or_introl eq_refl)) as (k0 & Hk0).
  set (srt := sorted key_ltb kxs).
  assert (Hsrt : srt <> []).
  { intros E. apply PyFacts.sorted_nil_inv in E. subst kxs.
    apply PyFacts.rmap_ok_length in Hkxs. discriminate. }
  destruct (last srt (k0, x0)) as [k m] eqn:Hlast.
  assert (Hm : In (k, m) kxs).
  { apply (Permutation_in _ (PyFacts.sorted_perm key_ltb kxs)).
    fold srt. rewrite <- Hlast. apply last_in, Hsrt. }
  apply Hin in Hm. destruct Hm as (Hm & Hfm).
  exists m, k. repeat split; try assumption.
  - intros x k' Hx Hfx.
    assert (Hx' : In (k', x) srt).
    { apply (Permutation_in _
               (Permutation_sym (PyFacts.sorted_perm key_ltb kxs))).
      apply Hin. auto. }
    pose proof (PyFacts.sorted_last_greatest key_ltb
                  key_le_refl srt (k0, x0) (k', x)
                  (PyFacts.sorted_sorted key_ltb key_ltb_asym
                     key_le_trans kxs) Hx') as Hle.
    rewrite Hlast in Hle. unfold le, key_ltb in Hle. simpl in Hle.
    apply Z.ltb_ge in Hle. exact Hle.
  - unfold sorted_key. fold g. rewrite Hkxs. simpl.
    fold srt.
    rewrite (PyFacts.index_last_eq (map snd srt) (snd (k0, x0))).
    + rewrite (last_of_map snd srt (k0, x0)), Hlast. reflexivity.
    + intros E. apply map_eq_nil in E. contradiction.
Qed.


(** The [try] block as a function of the filesystem: it writes
    nothing and leaves the world as it is. *)
Lemma get_checkpoint_dir_try_run (search_dir : path_arg) (w : world) :
  get_checkpoint_dir_try search_dir w
  = (rbind (search_root (w_fs w) search_dir) (fun root =>
     rbind (rbind (sorted_key (getmtime (w_fs w))
                     (glob_checkpoints (w_fs w) root))
                  (fun ordered => index ordered (-1)))
           (fun newest => Ok (Some (parent newest)))), w).
Proof.
  unfold get_checkpoint_dir_try, search_root, bind, lift, call, ret,
    generator_truth.
  destruct (Path_new search_dir) as [p|]; simpl; [|reflexivity].
  destruct (expanduser (w_fs w) p) as [root|]; simpl; [|reflexivity].
  destruct (sorted_key _ _) as [ordered|]; simpl; [|reflexivity].
  destruct (index ordered (-1)); reflexivity.
Qed.

Lemma get_checkpoint_dir_run (search_dir : path_arg) (w : world) :
  get_checkpoint_dir search_dir w
  = (match fst (get_checkpoint_dir_try search_dir w) with
     | Ok r => Ok r
     | Raise _ => Ok None
     end, w).
Proof.
  unfold get_checkpoint_dir, try_except, ret.
  rewrite get_checkpoint_dir_try_run. simpl.
  destruct (rbind _ _); reflexivity.
Qed.

Lemma marker_below_glob (fs : filesystem) (root : Path) (q : Path) :
  In q (glob_checkpoints fs root)
  <-> exists rel, q = root ++ rel /\ marker_below fs root rel.
Proof.
  unfold marker_below. split.
  - intros Hq. unfold glob_checkpoints in Hq.
    destruct (stat fs root) as [[t|t r es|]|] eqn:Hs; try destruct Hq.
    apply TreeFacts.rglob_selects in Hq. destruct Hq as (rel & -> & Hsel).
    exists rel. split; [reflexivity|]. exists t, r, es. auto.
  - intros (rel & -> & t & r & es & Hs & Hsel).
    apply (TreeFacts.glob_checkpoints_selects _ _ _ _ _ Hs).
    exists rel. auto.
Qed.



Lemma no_marker_below (fs : filesystem) (root : Path) :
  glob_checkpoints fs root = [] -> forall rel, ~ marker_below fs root rel.
Proof.
  intros H rel Hrel.
  assert (Hin : In (root ++ rel) (glob_checkpoints fs root))
    by (apply marker_below_glob; eauto).
  rewrite H in Hin. destruct Hin.
Qed.





(** Conversely, a call that returns [None] is a search that found
    nothing in one of these ways. *)
Lemma get_checkpoint_dir_None_inv (w : world) (search_dir : path_arg) :
  get_checkpoint_dir search_dir w = (Ok None, w) ->
  search_fails (w_fs w) search_dir.
Proof.
  rewrite get_checkpoint_dir_run, get_checkpoint_dir_try_run. simpl.
  intros H.
  destruct (search_root (w_fs w) search_dir) as [root|e] eqn:Hroot;
    [|right; left; eauto].
  right. right. exists root. split; [exact Hroot|]. simpl in H.
  destruct (glob_checkpoints (w_fs w) root) as [|q l] eqn:Hglob.
  { right. left. apply no_marker_below, Hglob. }
  right. right.
  set (g := fun x => rbind (getmtime (w_fs w) x) (fun k => Ok (k, x))).
  destruct (rmap g (q :: l)) as [kxs|e] eqn:Hkxs.
  - exfalso.
    destruct (sorted_key_last (getmtime (w_fs w)) (q :: l))
      as (m & t & _ & _ & _ & Hrun); [discriminate | |].
    + intros x Hx.
      destruct (PyFacts.rmap_ok_inv g _ _ Hkxs x Hx) as ([k x'] & Hg).
      unfold g in Hg. destruct (getmtime (w_fs w) x); [eauto|discriminate].
    + rewrite Hrun in H. simpl in H. inversion H.
  - destruct (PyFacts.rmap_raise_inv g _ _ Hkxs) as (x & Hx & Hg).
    rewrite <- Hglob in Hx. apply marker_below_glob in Hx.
    destruct Hx as (rel & -> & Hrel).
    unfold g in Hg.
    destruct (getmtime (w_fs w) (root ++ rel)) as [k|e'] eqn:Hm;
      [discriminate|].
    exists rel, e'. auto.
Qed.

End CheckpointFacts.

(** ** [get_policy_mapping_fn] *)

Module MappingFacts.

Lemma printed_printed (w : world) (a b : list string) :
  printed (printed w a) b = printed w (a ++ b).
Proof. unfold printed. simpl. rewrite app_assoc. reflexivity. Qed.

Lemma len_map {A B} (f : A -> B) (l : list A) : len (map f l) = len l.
Proof. unfold len. rewrite length_map. reflexivity. Qed.

(** *** The closure and the fallback *)

Lemma closure_nil (i : Z) (ex : extra) :
  policy_mapping_fn_closure [] i ex = Raise ZeroDivisionError.
Proof. reflexivity. Qed.

Lemma closure_cyclic (ps : list Path) (i : Z) (ex : extra) :
  ps <> [] ->
  policy_mapping_fn_closure ps i ex = Ok (cyclic (map name ps) i).
Proof.
  intros Hne. unfold policy_mapping_fn_closure, mod_, cyclic.
  assert (Hlen : 0 < len ps).
  { destruct ps; [congruence | unfold len; simpl; lia]. }
  assert (E : (len ps =? 0) = false) by (apply Z.eqb_neq; lia).
  rewrite E. cbn [rbind].
  pose proof (Z.mod_pos_bound i (len ps) Hlen) as Hb.
  rewrite (PyFacts.index_in_range ps (i mod len ps) [] Hb). cbn [rbind].
  rewrite len_map. symmetry. f_equal. apply (map_nth name ps []).
Qed.


(** *** The list of saved policies *)

Lemma policies_of_run (checkpoint_dir : path_arg) (w : world) :
  policies_of checkpoint_dir w
  = (rbind (truediv checkpoint_dir "policies") (fun d =>
     rbind (iterdir (w_fs w) d) (fun paths =>
     Ok (sorted parts_ltb (filter (is_dir (w_fs w)) paths)))), w).
Proof.
  unfold policies_of, bind, lift, call, ret.
  destruct (truediv checkpoint_dir "policies") as [d|]; simpl;
    [|reflexivity].
  destruct (iterdir (w_fs w) d); reflexivity.
Qed.

Lemma iterdir_listed (fs : filesystem) (d : Path) t es :
  stat fs d = Ok (Dir t true es) ->
  iterdir fs d = Ok (map (fun e => joinpath d (fst e)) es).
Proof. intros H. unfold iterdir. rewrite H. reflexivity. Qed.

Lemma joinpath_policies_nonempty (p : Path) : joinpath p "policies" <> [].
Proof.
  unfold joinpath. intros E. apply app_eq_nil in E.
  destruct E; discriminate.
Qed.

(** The saved policies of a checkpoint directory given as a [Path]:
    the subdirectories of its ["policies"] folder, by name. *)
Lemma policies_of_Path (w : world) (p : Path) t es :
  stat (w_fs w) (joinpath p "policies") = Ok (Dir t true es) ->
  NoDup (map fst es) ->
  policies_of (ArgPath p) w
  = (Ok (map (joinpath (joinpath p "policies")) (PolicyIDs es)), w).
Proof.
  intros Hs N. rewrite policies_of_run. cbn [truediv rbind].
  rewrite (iterdir_listed _ _ _ _ Hs). cbn [rbind].
  rewrite (TreeFacts.filter_is_dir_entries _ _ _ _ _
             (joinpath_policies_nonempty p) Hs N).
  rewrite FSFacts.sorted_siblings. reflexivity.
Qed.

Lemma names_of_siblings (d : Path) (ids : list string) :
  d <> [] -> map name (map (joinpath d) ids) = ids.
Proof.
  intros Hd. rewrite map_map. rewrite <- (map_id ids) at 2.
  apply map_ext. intros nm. apply FSFacts.name_joinpath, Hd.
Qed.

(** With no directory among the entries nothing passes the
    [is_dir] filter, whatever the names are. *)
Lemma policies_of_Path_empty (w : world) (p : Path) :
  policies_empty (w_fs w) p -> policies_of (ArgPath p) w = (Ok [], w).
Proof.
  intros (t & es & Hs & Hnone). rewrite policies_of_run.
  cbn [truediv rbind]. rewrite (iterdir_listed _ _ _ _ Hs). cbn [rbind].
  assert (H : forall l : list (string * node),
             filter (is_dir (w_fs w))
                    (map (fun e => joinpath (joinpath p "policies") (fst e)) l)
             = []).
  { induction l as [|[nm c] l IH]; [reflexivity|]. simpl.
    rewrite (TreeFacts.is_dir_child _ _ nm _ _ _
               (joinpath_policies_nonempty p) Hs).
    destruct (lookup nm es) as [c'|] eqn:El; [|exact IH].
    destruct (is_Dir c') eqn:Ec; [|exact IH]. exfalso.
    unfold lookup in El.
    destruct (find (fun e => (fst e =? nm)%string) es) as [e|] eqn:Ef;
      [|discriminate].
    apply find_some in Ef. destruct Ef as [Hin _].
    inversion El; subst c'.
    assert (Hsub : In (fst e) (subdirectory_names es)).
    { unfold subdirectory_names. apply in_map, filter_In. auto. }
    rewrite Hnone in Hsub. destruct Hsub. }
  rewrite H. reflexivity.
Qed.

(** *** The diagnostic loop *)

Lemma diagnostics_ok (f : mapping_fn) (line : Z -> string) (xs : list Z) :
  (forall x, In x xs ->
     exists pid, f x no_extra = Ok pid
                 /\ line x = String.concat " "
                      ["Agent ID:"; str_int x; "Policy ID:"; pid]) ->
  forall w,
    for_each xs (fun agent_id =>
      bind (lift (f agent_id no_extra)) (fun policy_id =>
      print ["Agent ID:"; str_int agent_id; "Policy ID:"; policy_id])) w
    = (Ok tt, printed w (map line xs)).
Proof.
  induction xs as [|x xs IH]; intros H w.
  - unfold printed. simpl. rewrite app_nil_r. destruct w; reflexivity.
  - destruct (H x (or_introl eq_refl)) as (pid & Hf & Hline).
    cbn [for_each]. unfold bind at 1. unfold bind at 1.
    unfold lift at 1. rewrite Hf. unfold print at 1.
    rewrite IH by (intros y Hy; apply H; right; exact Hy).
    cbn [map]. rewrite Hline.
    unfold printed. cbn [w_fs w_stdout]. rewrite <- app_assoc. reflexivity.
Qed.

Lemma diagnostics_raise (f : mapping_fn) (x : Z) (xs : list Z) (e : exn)
      (w : world) :
  f x no_extra = Raise e ->
  for_each (x :: xs) (fun agent_id =>
    bind (lift (f agent_id no_extra)) (fun policy_id =>
    print ["Agent ID:"; str_int agent_id; "Policy ID:"; policy_id])) w
  = (Raise e, w).
Proof.
  intros Hf. cbn [for_each]. unfold bind, lift. rewrite Hf. reflexivity.
Qed.

(** *** Running the [try] block *)

Lemma try_unlisted (cd : path_arg) (n : Z) (w : world) (e : exn) :
  policies_of cd w = (Raise e, w) ->
  get_policy_mapping_fn_try cd n w = (Raise e, w).
Proof.
  intros H. unfold get_policy_mapping_fn_try, bind at 1. rewrite H.
  reflexivity.
Qed.

Lemma try_listed (cd : path_arg) (n : Z) (w : world) (ps : list Path) :
  policies_of cd w = (Ok ps, w) ->
  get_policy_mapping_fn_try cd n w
  = match
      for_each (range n) (fun agent_id =>
        bind (lift (policy_mapping_fn_closure ps agent_id no_extra))
             (fun policy_id =>
        print ["Agent ID:"; str_int agent_id; "Policy ID:"; policy_id]))
        (printed w [loading_line cd])
    with
    | (Ok _, w') => (Ok (policy_mapping_fn_closure ps), w')
    | (Raise e, w') => (Raise e, w')
    end.
Proof.
  intros H. unfold get_policy_mapping_fn_try, bind at 1. rewrite H.
  unfold bind at 1. unfold print at 1. unfold bind at 1.
  fold (loading_line cd). fold (printed w [loading_line cd]).
  destruct (for_each _ _ _) as [[u|e] w']; reflexivity.
Qed.

Lemma try_empty_raises (cd : path_arg) (n : Z) (w : world) :
  policies_of cd w = (Ok [], w) -> 0 < n ->
  get_policy_mapping_fn_try cd n w
  = (Raise ZeroDivisionError, printed w [loading_line cd]).
Proof.
  intros H Hn. rewrite (try_listed _ _ _ _ H).
  destruct (PyFacts.range_pos n Hn) as (tl & ->).
  rewrite (diagnostics_raise _ _ _ ZeroDivisionError); reflexivity.
Qed.

Lemma try_empty_returns (cd : path_arg) (n : Z) (w : world) :
  policies_of cd w = (Ok [], w) -> n <= 0 ->
  get_policy_mapping_fn_try cd n w
  = (Ok (policy_mapping_fn_closure []), printed w [loading_line cd]).
Proof.
  intros H Hn. rewrite (try_listed _ _ _ _ H).
  rewrite (PyFacts.range_nonpos n Hn). reflexivity.
Qed.

Lemma try_loaded (cd : path_arg) (n : Z) (w : world) (ps : list Path) :
  policies_of cd w = (Ok ps, w) -> ps <> [] ->
  get_policy_mapping_fn_try cd n w
  = (Ok (policy_mapping_fn_closure ps),
     printed w (loading_line cd
                :: map (agent_line (map name ps)) (range n))).
Proof.
  intros H Hne. rewrite (try_listed _ _ _ _ H).
  rewrite (diagnostics_ok _ (agent_line (map name ps))).
  - rewrite printed_printed. reflexivity.
  - intros x _. exists (cyclic (map name ps) x).
    split; [apply closure_cyclic, Hne | reflexivity].
Qed.

Lemma except_fallback (cd : path_arg) (n : Z) (w w' : world) (e : exn) :
  get_policy_mapping_fn_try cd n w = (Raise e, w') ->
  get_policy_mapping_fn cd n w = (Ok fallback_lambda, w').
Proof.
  intros H. unfold get_policy_mapping_fn, try_except. rewrite H.
  reflexivity.
Qed.

Lemma no_except (cd : path_arg) (n : Z) (w w' : world) (f : mapping_fn) :
  get_policy_mapping_fn_try cd n w = (Ok f, w') ->
  get_policy_mapping_fn cd n w = (Ok f, w').
Proof.
  intros H. unfold get_policy_mapping_fn, try_except. rewrite H.
  reflexivity.
Qed.

Lemma get_policy_mapping_fn_outcome (cd : path_arg) (n : Z) (w : world) :
  exists f w',
    get_policy_mapping_fn cd n w = (Ok f, w') /\ outcome cd n w f w'.
Proof.
  pose proof (policies_of_run cd w) as H.
  destruct (rbind (truediv cd "policies") _) as [ps|e].
  - destruct ps as [|q ps].
    + destruct (Z.lt_ge_cases 0 n) as [Hn|Hn].
      * eexists _, _. split; [|apply outcome_empty_fallback; assumption].
        eapply except_fallback, try_empty_raises; assumption.
      * eexists _, _. split; [|apply outcome_empty_closure; assumption].
        apply no_except, try_empty_returns; assumption.
    + eexists _, _. split;
        [|apply outcome_loaded with (ps := q :: ps); [exact H|discriminate]].
      apply no_except, try_loaded; [exact H | discriminate].
  - eexists _, _. split; [|eapply outcome_unlisted; exact H].
    eapply except_fallback, try_unlisted, H.
Qed.

Lemma outcome_fs cd n w f w' : outcome cd n w f w' -> w_fs w' = w_fs w.
Proof. destruct 1; reflexivity. Qed.

(** A checkpoint directory given as a string never reaches the
    listing: [str / str] is a type error. *)
Lemma get_policy_mapping_fn_str (s : string) (n : Z) (w : world) :
  get_policy_mapping_fn (ArgStr s) n w = (Ok fallback_lambda, w).
Proof. reflexivity. Qed.

Lemma get_policy_mapping_fn_None (n : Z) (w : world) :
  get_policy_mapping_fn ArgNone n w = (Ok fallback_lambda, w).
Proof. reflexivity. Qed.

(** A checkpoint directory given as a [Path], with one or more saved
    policies: the mapping is cyclic over the sorted policy names. *)
Lemma get_policy_mapping_fn_Path (w : world) (p : Path) (n : Z) t es :
  stat (w_fs w) (joinpath p "policies") = Ok (Dir t true es) ->
  NoDup (map fst es) ->
  PolicyIDs es <> [] ->
  exists f,
    get_policy_mapping_fn (ArgPath p) n w
    = (Ok f, printed w (loading_line (ArgPath p)
                        :: map (agent_line (PolicyIDs es)) (range n)))
    /\ forall i ex, f i ex = Ok (cyclic (PolicyIDs es) i).
Proof.
  intros Hs N Hne.
  pose proof (policies_of_Path w p t es Hs N) as Hps.
  set (ps := map (joinpath (joinpath p "policies")) (PolicyIDs es)) in *.
  assert (Hnames : map name ps = PolicyIDs es)
    by (apply names_of_siblings, joinpath_policies_nonempty).
  assert (Hps_ne : ps <> []).
  { intros E. apply Hne. rewrite <- Hnames, E. reflexivity. }
  exists (policy_mapping_fn_closure ps). split.
  - rewrite <- Hnames. apply no_except, try_loaded; assumption.
  - intros i ex. rewrite <- Hnames. apply closure_cyclic, Hps_ne.
Qed.

Lemma outcome_deterministic cd n w1 w2 f1 f2 w1' w2' :
  w_fs w1 = w_fs w2 ->
  outcome cd n w1 f1 w1' -> outcome cd n w2 f2 w2' -> f1 = f2.
Proof.
  intros Hfs H1 H2.
  pose proof (policies_of_run cd w1) as R1.
  pose proof (policies_of_run cd w2) as R2.
  rewrite Hfs in R1.
  destruct H1 as [e1 P1 | P1 ? | P1 ? | ps1 P1 ?];
    destruct H2 as [e2 P2 | P2 ? | P2 ? | ps2 P2 ?];
    rewrite P1 in R1; rewrite P2 in R2;
    try reflexivity; try lia;
    try (exfalso; congruence).
  assert (ps1 = ps2) by congruence. subst. reflexivity.
Qed.

Lemma subdirectory_names_NoDup (es : list (string * node)) :
  NoDup (map fst es) -> NoDup (subdirectory_names es).
Proof.
  unfold subdirectory_names.
  induction es as [|[nm c] es IH]; simpl; intros N; [constructor|].
  inversion N as [|? ? Hnot N']; subst.
  destruct (is_Dir c); simpl; [|apply IH, N'].
  constructor; [|apply IH, N'].
  intros Hin. apply Hnot. apply in_map_iff in Hin.
  destruct Hin as (e & <- & He). apply filter_In in He.
  apply in_map, He.
Qed.

Lemma subdirectory_names_perm (es es' : list (string * node)) :
  Permutation es es' ->
  Permutation (subdirectory_names es) (subdirectory_names es').
Proof.
  intros P. unfold subdirectory_names. apply Permutation_map.
  induction P as [|x l l' P IH|x y l|l l' l'' P1 IH1 P2 IH2]; simpl.
  - constructor.
  - destruct (is_Dir (snd x)); [apply perm_skip|]; exact IH.
  - destruct (is_Dir (snd x)), (is_Dir (snd y));
      try apply perm_swap; apply Permutation_refl.
  - eapply perm_trans; eassumption.
Qed.

(** The policy identifiers do not depend on the order in which the
    directory lists its entries. *)
Lemma PolicyIDs_perm (es es' : list (string * node)) :
  NoDup (map fst es) -> Permutation es es' -> PolicyIDs es = PolicyIDs es'.
Proof.
  intros N P. unfold PolicyIDs.
  apply FSFacts.sorted_names_order_independent.
  - apply subdirectory_names_NoDup, N.
  - apply subdirectory_names_perm, P.
Qed.

End MappingFacts.

(** ** The mapping that [get_policy_mapping_fn] returns *)

Module MappingClaims.

Import MappingFacts.

(** C1: a checkpoint directory with saved policies that is passed as
    a string, which the signature and the docstring of
    [get_policy_mapping_fn] allow, does not get the cyclic mapping
    over its policy names.  [runs/a/ckpt1] holds the policies
    [policy_a] and [policy_b]; the call with the string
    ["runs/a/ckpt1"] and two agents writes nothing and returns the
    fallback naming, so agent 0 goes to ["policy_0"], not to
    ["policy_a"]. *)
Theorem get_policy_mapping_fn_str_checkpoint :
  Path_new (ArgStr "runs/a/ckpt1") = Ok Fixture.ckpt1
  /\ (exists t es,
        stat Fixture.fs0 (joinpath Fixture.ckpt1 "policies")
        = Ok (Dir t true es)
        /\ NoDup (map fst es)
        /\ PolicyIDs es = ["policy_a"; "policy_b"])
  /\ exists f,
       get_policy_mapping_fn (ArgStr "runs/a/ckpt1") 2 Fixture.w0
       = (Ok f, Fixture.w0)
       /\ f 0 no_extra = Ok "policy_0"
       /\ f 1 no_extra = Ok "policy_1"
       /\ cyclic ["policy_a"; "policy_b"] 0 = "policy_a"
       /\ cyclic ["policy_a"; "policy_b"] 1 = "policy_b".
Proof.
  split; [reflexivity|]. split.
  - eexists _, _. split; [reflexivity|]. split; [|reflexivity].
    repeat (constructor; [simpl; intuition discriminate|]). constructor.
  - exists fallback_lambda. repeat split; reflexivity.
Qed.





(** C7: the policy subdirectories are put in order by name before the
    mapping is built: the list bound to [policies] is ordered by
    name, holds exactly the subdirectories of ["policies"], and is
    the same however the directory lists its entries.  With the two
    subdirectories [policy_b] and [policy_a] the order is
    [policy_a], [policy_b], and agents 0, 1 and 2 are mapped to
    [policy_a], [policy_b] and [policy_a]. *)
Theorem policies_sorted_by_name (w : world) (p : Path) (n : Z) t es :
  stat (w_fs w) (joinpath p "policies") = Ok (Dir t true es) ->
  NoDup (map fst es) ->
  exists ps,
    policies_of (ArgPath p) w = (Ok ps, w)
    /\ StronglySorted name_le (map name ps)
    /\ Permutation (map name ps) (subdirectory_names es)
    /\ (forall w' t' es',
          stat (w_fs w') (joinpath p "policies") = Ok (Dir t' true es') ->
          Permutation es es' ->
          policies_of (ArgPath p) w' = (Ok ps, w'))
    /\ (Permutation (subdirectory_names es) ["policy_b"; "policy_a"] ->
        map name ps = ["policy_a"; "policy_b"]
        /\ exists f w',
             get_policy_mapping_fn (ArgPath p) n w = (Ok f, w')
             /\ f 0 no_extra = Ok "policy_a"
             /\ f 1 no_extra = Ok "policy_b"
             /\ f 2 no_extra = Ok "policy_a").
Proof.
  intros Hs N.
  exists (map (joinpath (joinpath p "policies")) (PolicyIDs es)).
  assert (Hnames :
            map name (map (joinpath (joinpath p "policies")) (PolicyIDs es))
            = PolicyIDs es)
    by (apply names_of_siblings, joinpath_policies_nonempty).
  split; [apply (policies_of_Path w p t es Hs N)|].
  rewrite Hnames. split; [apply FSFacts.sorted_names_sorted|].
  split; [apply PyFacts.sorted_perm|]. split.
  - intros w' t' es' Hs' P.
    rewrite (PolicyIDs_perm es es' N P).
    apply (policies_of_Path w' p t' es' Hs').
    apply (Permutation_NoDup (Permutation_map fst P) N).
  - intros P.
    assert (Hids : PolicyIDs es = ["policy_a"; "policy_b"]).
    { unfold PolicyIDs.
      rewrite (FSFacts.sorted_names_order_independent _ _
                 (subdirectory_names_NoDup es N) P).
      reflexivity. }
    split; [exact Hids|].
    destruct (get_policy_mapping_fn_Path w p n t es Hs N) as (f & Hrun & Hf).
    { rewrite Hids. discriminate. }
    exists f. eexists. split; [exact Hrun|].
    rewrite !Hf, Hids. repeat split; reflexivity.
Qed.

Lemma policies_sorted_by_name_witness :
  exists ps,
    policies_of (ArgPath Fixture.ckpt1) Fixture.w0 = (Ok ps, Fixture.w0)
    /\ map name ps = ["policy_a"; "policy_b"]
    /\ exists f w',
         get_policy_mapping_fn (ArgPath Fixture.ckpt1) 3 Fixture.w0
         = (Ok f, w')
         /\ f 0 no_extra = Ok "policy_a"
         /\ f 1 no_extra = Ok "policy_b"
         /\ f 2 no_extra = Ok "policy_a".
Proof.
  destruct (policies_sorted_by_name Fixture.w0 Fixture.ckpt1 3 10
              [("policy_b", Fixture.policy); ("notes.txt", File 7);
               ("policy_a", Fixture.policy)])
    as (ps & Hps & _ & _ & _ & Hscenario).
  - reflexivity.
  - repeat (constructor; [simpl; intuition discriminate|]). constructor.
  - exists ps. split; [exact Hps|]. apply Hscenario.
    apply Permutation_refl.
Defined.

End MappingClaims.

(** ** Repeated calls, the fallback, and the empty policy list *)

Module CallClaims.

Import MappingFacts.

(** C8: both functions are determined by the filesystem and their
    arguments, and neither changes the filesystem.  Hence two calls
    of [get_checkpoint_dir] in worlds with the same filesystem, such
    as one call right after another, return the same result, and two
    such calls of [get_policy_mapping_fn] return functions that agree
    on every [agent_id]. *)
Theorem calls_repeatable (w1 w2 : world) (sd cd : path_arg) (n : Z) :
  w_fs w1 = w_fs w2 ->
  fst (get_checkpoint_dir sd w1) = fst (get_checkpoint_dir sd w2)
  /\ w_fs (snd (get_checkpoint_dir sd w1)) = w_fs w1
  /\ w_fs (snd (get_policy_mapping_fn cd n w1)) = w_fs w1
  /\ exists f1 f2,
       fst (get_policy_mapping_fn cd n w1) = Ok f1
       /\ fst (get_policy_mapping_fn cd n w2) = Ok f2
       /\ forall i ex, f1 i ex = f2 i ex.
Proof.
  intros Hfs. split; [|split; [|split]].
  - rewrite !CheckpointFacts.get_checkpoint_dir_run,
      !CheckpointFacts.get_checkpoint_dir_try_run, Hfs.
    reflexivity.
  - rewrite CheckpointFacts.get_checkpoint_dir_run. reflexivity.
  - destruct (get_policy_mapping_fn_outcome cd n w1)
      as (f & w' & -> & Hout).
    apply (outcome_fs _ _ _ _ _ Hout).
  - destruct (get_policy_mapping_fn_outcome cd n w1)
      as (f1 & w1' & -> & Hout1).
    destruct (get_policy_mapping_fn_outcome cd n w2)
      as (f2 & w2' & -> & Hout2).
    exists f1, f2. repeat split.
    rewrite (outcome_deterministic _ _ _ _ _ _ _ _ Hfs Hout1 Hout2).
    reflexivity.
Qed.

(** The second call runs in the world the first call left, with its
    lines on standard output. *)
Lemma calls_repeatable_witness :
  let w1 := Fixture.w0 in
  let w2 := snd (get_policy_mapping_fn (ArgPath Fixture.ckpt1) 2 w1) in
  w_stdout w2 <> w_stdout w1
  /\ fst (get_checkpoint_dir (ArgStr "~/runs") w1)
     = fst (get_checkpoint_dir (ArgStr "~/runs") w2)
  /\ w_fs (snd (get_checkpoint_dir (ArgStr "~/runs") w1)) = w_fs w1
  /\ w_fs (snd (get_policy_mapping_fn (ArgPath Fixture.ckpt1) 2 w1))
     = w_fs w1
  /\ exists f1 f2,
       fst (get_policy_mapping_fn (ArgPath Fixture.ckpt1) 2 w1) = Ok f1
       /\ fst (get_policy_mapping_fn (ArgPath Fixture.ckpt1) 2 w2) = Ok f2
       /\ forall i ex, f1 i ex = f2 i ex.
Proof.
  intros w1 w2. split; [discriminate|].
  apply (calls_repeatable w1 w2 (ArgStr "~/runs") (ArgPath Fixture.ckpt1) 2).
  reflexivity.
Defined.



(** C10: when the ["policies"] folder can be listed and holds no
    policy subdirectory, the list of policies is built without an
    exception and the opening line is written; only the first turn of
    the loop over [range(num_agents)] raises, by calling the
    function, and leads to the fallback.  With no agent to loop over
    ([num_agents <= 0]) nothing raises, and the function returned is
    the one over the empty list, which raises for every
    [agent_id]. *)
Theorem empty_policies_closure (w : world) (p : Path) (n : Z) :
  policies_empty (w_fs w) p ->
  policies_of (ArgPath p) w = (Ok [], w)
  /\ (1 <= n ->
      get_policy_mapping_fn_try (ArgPath p) n w
      = (Raise ZeroDivisionError,
         printed w [loading_line (ArgPath p)])
      /\ get_policy_mapping_fn (ArgPath p) n w
         = (Ok fallback_lambda, printed w [loading_line (ArgPath p)]))
  /\ (n <= 0 ->
      exists f,
        get_policy_mapping_fn (ArgPath p) n w
        = (Ok f, printed w [loading_line (ArgPath p)])
        /\ forall i ex, f i ex = Raise ZeroDivisionError).
Proof.
  intros Hempty.
  pose proof (policies_of_Path_empty w p Hempty) as Hps.
  split; [exact Hps|]. split.
  - intros Hn.
    assert (Htry := try_empty_raises (ArgPath p) n w Hps ltac:(lia)).
    split; [exact Htry | apply (except_fallback _ _ _ _ _ Htry)].
  - intros Hn. exists (policy_mapping_fn_closure []). split.
    + apply no_except, try_empty_returns; assumption.
    + intros i ex. apply closure_nil.
Qed.

Lemma empty_policies_closure_witness :
  exists f,
    get_policy_mapping_fn (ArgPath Fixture.ckpt2) 0 Fixture.w0
    = (Ok f, printed Fixture.w0 [loading_line (ArgPath Fixture.ckpt2)])
    /\ forall i ex, f i ex = Raise ZeroDivisionError.
Proof.
  apply (empty_policies_closure Fixture.w0 Fixture.ckpt2 0).
  - exists 20, []. split; reflexivity.
  - lia.
Defined.

End CallClaims.

(** ** The scenarios of the specification, run on the fixture *)

Module Scenarios.

Import Fixture.

Example decimal_rendering :
  map str_int [0; 5; 12; -1] = ["0"; "5"; "12"; "-1"].
Proof. reflexivity. Qed.

Example path_parsing :
  map Path_of_str ["~/runs"; "/home//u/./a"; "runs/a/"; "."; "//net/x"]
  = [["~"; "runs"]; ["/"; "home"; "u"; "a"]; ["runs"; "a"]; [];
     ["//"; "net"; "x"]].
Proof. reflexivity. Qed.

Example marker_names :
  map is_checkpoint_marker
      [".is_checkpoint"; "rllib.is_checkpoint"; "is_checkpoint";
       ".is_checkpoint.bak"]
  = [true; true; false; false].
Proof. reflexivity. Qed.

Example latest_of_two :
  get_checkpoint_dir (ArgStr "runs") w0 = (Ok (Some ckpt2), w0).
Proof. reflexivity. Qed.

Example latest_below_home :
  get_checkpoint_dir (ArgStr "~/runs") w0
  = (Ok (Some ["/"; "home"; "u"; "runs"; "b"; "ckpt2"]), w0).
Proof. reflexivity. Qed.

Example nothing_found :
  map (fun sd => fst (get_checkpoint_dir sd w0))
      [ArgNone; ArgStr "/nowhere"; ArgStr "~nobody"; ArgStr "fresh";
       ArgStr "stale"; ArgStr "locked"; ArgPath ["fresh"; "README"]]
  = [Ok None; Ok None; Ok None; Ok None; Ok None; Ok None; Ok None].
Proof. reflexivity. Qed.

Example saved_policies_cycle :
  exists f,
    get_policy_mapping_fn (ArgPath ckpt1) 3 w0
    = (Ok f, printed w0 ["Loading policies from: runs/a/ckpt1";
                         "Agent ID: 0 Policy ID: policy_a";
                         "Agent ID: 1 Policy ID: policy_b";
                         "Agent ID: 2 Policy ID: policy_a"])
    /\ map (fun i => f i no_extra) [0; 1; 2; 5]
       = [Ok "policy_a"; Ok "policy_b"; Ok "policy_a"; Ok "policy_b"].
Proof. eexists. split; reflexivity. Qed.

Example no_checkpoint_three_agents :
  exists f,
    get_policy_mapping_fn ArgNone 3 w0 = (Ok f, w0)
    /\ f 0 no_extra = Ok "policy_0"
    /\ f 5 no_extra = Ok "policy_5".
Proof. eexists. repeat split; reflexivity. Qed.

End Scenarios.

(** * Further properties *)

(** ** Decimal names and ranges *)

Module NameFacts.

Lemma str_int_inj (i j : Z) : str_int i = str_int j -> i = j.
Proof.
  unfold str_int. intros H.
  assert (Hi : forall z, NilZero.int_of_string (NilZero.string_of_int
                            (Z.to_int z)) = Some (Z.to_int z)).
  { intros z. apply NilZero.isi; destruct z; simpl; try discriminate;
      intros E; inversion E as [E'];
      exact (DecimalPos.Unsigned.to_uint_nonnil _ E'). }
  apply DecimalZ.to_int_inj.
  assert (E : Some (Z.to_int i) = Some (Z.to_int j))
    by (rewrite <- !Hi, H; reflexivity).
  inversion E. reflexivity.
Qed.

(** The synthetic policy name of an agent. *)
Lemma policy_name_inj (i j : Z) :
  ("policy_" ++ str_int i)%string = ("policy_" ++ str_int j)%string -> i = j.
Proof.
  simpl. intros H. inversion H as [H']. apply str_int_inj, H'.
Qed.

Lemma range_length (n : Z) : List.length (range n) = Z.to_nat n.
Proof. unfold range. rewrite length_map, length_seq. reflexivity. Qed.

Lemma range_nth (n k d : Z) :
  0 <= k < n -> nth (Z.to_nat k) (range n) d = k.
Proof.
  intros Hk. unfold range.
  rewrite (nth_indep _ d (Z.of_nat 0))
    by (rewrite length_map, length_seq; lia).
  rewrite (map_nth Z.of_nat), seq_nth by lia. lia.
Qed.

Lemma map_range_nth {A} (g : Z -> A) (n k : Z) (d : A) :
  0 <= k < n -> nth (Z.to_nat k) (map g (range n)) d = g k.
Proof.
  intros Hk.
  rewrite (nth_indep _ d (g 0)) by (rewrite length_map, range_length; lia).
  rewrite (map_nth g), range_nth by exact Hk. reflexivity.
Qed.


Lemma range_NoDup (n : Z) : NoDup (range n).
Proof.
  unfold range. apply Finite.Injective_map_NoDup; [|apply seq_NoDup].
  intros a b. apply Nat2Z.inj.
Qed.


Lemma policy_ids_NoDup (n : Z) : NoDup (Config.policy_ids n).
Proof.
  unfold Config.policy_ids.
  apply Finite.Injective_map_NoDup; [|apply range_NoDup].
  intros a b. apply policy_name_inj.
Qed.

Lemma policy_ids_length (n : Z) :
  List.length (Config.policy_ids n) = Z.to_nat n.
Proof. unfold Config.policy_ids. rewrite length_map. apply range_length. Qed.

End NameFacts.

(** ** The mapping over saved policies *)

Module MappingExtras.

Import MappingFacts NameFacts.

Lemma PolicyIDs_len (es : list (string * node)) :
  len (PolicyIDs es) = len (subdirectory_names es).
Proof.
  unfold len, PolicyIDs.
  rewrite (Permutation_length (PyFacts.sorted_perm String.ltb _)).
  reflexivity.
Qed.

Lemma PolicyIDs_nonempty (es : list (string * node)) :
  subdirectory_names es <> [] -> PolicyIDs es <> [].
Proof. intros H E. apply H. apply (PyFacts.sorted_nil_inv _ _ E). Qed.

Lemma PolicyIDs_In (es : list (string * node)) (pid : string) :
  In pid (PolicyIDs es) <-> In pid (subdirectory_names es).
Proof.
  unfold PolicyIDs. split; apply Permutation_in;
    [|apply Permutation_sym]; apply PyFacts.sorted_perm.
Qed.

Lemma len_pos {A} (l : list A) : l <> [] -> 0 < len l.
Proof. destruct l; [congruence | unfold len; simpl; lia]. Qed.

Lemma cyclic_In (ids : list string) (i : Z) :
  ids <> [] -> In (cyclic ids i) ids.
Proof.
  intros Hne. unfold cyclic. apply nth_In.
  pose proof (Z.mod_pos_bound i (len ids) (len_pos ids Hne)) as Hb.
  unfold len in *. lia.
Qed.

(** X1: the mapping over saved policies repeats with the number of
    policies: agents whose identifiers differ by a multiple of it, in
    either direction, get the same policy. *)
Theorem loaded_mapping_periodic (w : world) (p : Path) (n : Z) t es :
  stat (w_fs w) (joinpath p "policies") = Ok (Dir t true es) ->
  NoDup (map fst es) ->
  subdirectory_names es <> [] ->
  exists f w',
    get_policy_mapping_fn (ArgPath p) n w = (Ok f, w')
    /\ forall i k ex ex',
         f (i + k * len (subdirectory_names es)) ex = f i ex'.
Proof.
  intros Hs N Hne.
  destruct (get_policy_mapping_fn_Path w p n t es Hs N
              (PolicyIDs_nonempty es Hne)) as (f & Hrun & Hf).
  exists f. eexists. split; [exact Hrun|].
  intros i k ex ex'. rewrite !Hf. unfold cyclic.
  rewrite <- PolicyIDs_len, Z.mod_add; [reflexivity|].
  pose proof (len_pos _ (PolicyIDs_nonempty es Hne)). lia.
Qed.

Lemma loaded_mapping_periodic_witness :
  exists f w',
    get_policy_mapping_fn (ArgPath Fixture.ckpt1) 2 Fixture.w0 = (Ok f, w')
    /\ forall i k ex ex',
         f (i + k * len (subdirectory_names
                           [("policy_b", Fixture.policy);
                            ("notes.txt", File 7);
                            ("policy_a", Fixture.policy)])) ex
         = f i ex'.
Proof.
  apply (loaded_mapping_periodic Fixture.w0 Fixture.ckpt1 2 10).
  - reflexivity.
  - repeat (constructor; [simpl; intuition discriminate|]). constructor.
  - discriminate.
Defined.

(** X2: the mapping over saved policies answers every integer, also a
    negative one, and always with the name of one of the policy
    subdirectories. *)
Theorem loaded_mapping_on_integers (w : world) (p : Path) (n : Z) t es :
  stat (w_fs w) (joinpath p "policies") = Ok (Dir t true es) ->
  NoDup (map fst es) ->
  subdirectory_names es <> [] ->
  exists f w',
    get_policy_mapping_fn (ArgPath p) n w = (Ok f, w')
    /\ forall i ex,
         exists pid, f i ex = Ok pid /\ In pid (subdirectory_names es).
Proof.
  intros Hs N Hne.
  destruct (get_policy_mapping_fn_Path w p n t es Hs N
              (PolicyIDs_nonempty es Hne)) as (f & Hrun & Hf).
  exists f. eexists. split; [exact Hrun|].
  intros i ex. exists (cyclic (PolicyIDs es) i). split; [apply Hf|].
  apply PolicyIDs_In, cyclic_In, PolicyIDs_nonempty, Hne.
Qed.

Lemma loaded_mapping_on_integers_witness :
  exists f w',
    get_policy_mapping_fn (ArgPath Fixture.ckpt1) 2 Fixture.w0 = (Ok f, w')
    /\ forall i ex,
         exists pid,
           f i ex = Ok pid
           /\ In pid (subdirectory_names
                        [("policy_b", Fixture.policy);
                         ("notes.txt", File 7);
                         ("policy_a", Fixture.policy)]).
Proof.
  apply (loaded_mapping_on_integers Fixture.w0 Fixture.ckpt1 2 10).
  - reflexivity.
  - repeat (constructor; [simpl; intuition discriminate|]). constructor.
  - discriminate.
Defined.

(** X3: with N saved policies, the agents 0 to N-1 get N different
    policies, and every saved policy is the policy of one of them. *)
Theorem loaded_mapping_one_each (w : world) (p : Path) (n : Z) t es :
  stat (w_fs w) (joinpath p "policies") = Ok (Dir t true es) ->
  NoDup (map fst es) ->
  subdirectory_names es <> [] ->
  exists f w',
    get_policy_mapping_fn (ArgPath p) n w = (Ok f, w')
    /\ (forall i j ex ex',
          0 <= i < len (subdirectory_names es) ->
          0 <= j < len (subdirectory_names es) ->
          f i ex = f j ex' -> i = j)
    /\ (forall pid,
          In pid (subdirectory_names es) ->
          exists i, 0 <= i < len (subdirectory_names es)
                    /\ forall ex, f i ex = Ok pid).
Proof.
  intros Hs N Hne.
  destruct (get_policy_mapping_fn_Path w p n t es Hs N
              (PolicyIDs_nonempty es Hne)) as (f & Hrun & Hf).
  exists f. eexists. split; [exact Hrun|].
  assert (Hnd : NoDup (PolicyIDs es)).
  { apply (Permutation_NoDup
             (Permutation_sym (PyFacts.sorted_perm String.ltb _))).
    apply subdirectory_names_NoDup, N. }
  rewrite <- PolicyIDs_len. split.
  - intros i j ex ex' Hi Hj. rewrite !Hf. unfold cyclic.
    rewrite !Z.mod_small by assumption. intros E. inversion E as [E'].
    apply (proj1 (NoDup_nth (PolicyIDs es) "") Hnd) in E';
      unfold len in *; lia.
  - intros pid Hpid. apply PolicyIDs_In in Hpid.
    destruct (In_nth _ _ "" Hpid) as (k & Hk & Hnth).
    exists (Z.of_nat k). split; [unfold len; lia|].
    intros ex. rewrite Hf. unfold cyclic.
    rewrite Z.mod_small by (unfold len; lia).
    rewrite Nat2Z.id, Hnth. reflexivity.
Qed.

Lemma loaded_mapping_one_each_witness :
  let es := [("policy_b", Fixture.policy); ("notes.txt", File 7);
             ("policy_a", Fixture.policy)] in
  exists f w',
    get_policy_mapping_fn (ArgPath Fixture.ckpt1) 2 Fixture.w0 = (Ok f, w')
    /\ (forall i j ex ex',
          0 <= i < len (subdirectory_names es) ->
          0 <= j < len (subdirectory_names es) ->
          f i ex = f j ex' -> i = j)
    /\ (forall pid,
          In pid (subdirectory_names es) ->
          exists i, 0 <= i < len (subdirectory_names es)
                    /\ forall ex, f i ex = Ok pid).
Proof.
  intros es.
  apply (loaded_mapping_one_each Fixture.w0 Fixture.ckpt1 2 10 es).
  - reflexivity.
  - repeat (constructor; [simpl; intuition discriminate|]). constructor.
  - discriminate.
Defined.

(** X4: when policies are loaded, the call writes the opening line and
    then one line for each of the agents 0 to num_agents-1, in order,
    and nothing else; the line of an agent names the policy that the
    returned function gives this agent. *)
Theorem diagnostics_report_the_mapping (w : world) (p : Path) (n : Z) t es :
  stat (w_fs w) (joinpath p "policies") = Ok (Dir t true es) ->
  NoDup (map fst es) ->
  subdirectory_names es <> [] ->
  exists f w' lines,
    get_policy_mapping_fn (ArgPath p) n w = (Ok f, w')
    /\ w_stdout w'
       = w_stdout w
         ++ ("Loading policies from: " ++ Path_str p)%string :: lines
    /\ List.length lines = Z.to_nat n
    /\ forall k,
         0 <= k < n ->
         exists pid,
           f k no_extra = Ok pid
           /\ nth (Z.to_nat k) lines ""
              = ("Agent ID: " ++ str_int k ++ " Policy ID: " ++ pid)%string.
Proof.
  intros Hs N Hne.
  destruct (get_policy_mapping_fn_Path w p n t es Hs N
              (PolicyIDs_nonempty es Hne)) as (f & Hrun & Hf).
  exists f. eexists. exists (map (agent_line (PolicyIDs es)) (range n)).
  split; [exact Hrun|]. split; [reflexivity|].
  split; [rewrite length_map; apply range_length|].
  intros k Hk. exists (cyclic (PolicyIDs es) k). split; [apply Hf|].
  rewrite (map_range_nth (agent_line (PolicyIDs es)) n k "" Hk).
  reflexivity.
Qed.

Lemma diagnostics_report_the_mapping_witness :
  exists f w' lines,
    get_policy_mapping_fn (ArgPath Fixture.ckpt1) 2 Fixture.w0 = (Ok f, w')
    /\ w_stdout w'
       = w_stdout Fixture.w0
         ++ ("Loading policies from: " ++ Path_str Fixture.ckpt1)%string
            :: lines
    /\ List.length lines = Z.to_nat 2
    /\ forall k,
         0 <= k < 2 ->
         exists pid,
           f k no_extra = Ok pid
           /\ nth (Z.to_nat k) lines ""
              = ("Agent ID: " ++ str_int k ++ " Policy ID: " ++ pid)%string.
Proof.
  apply (diagnostics_report_the_mapping Fixture.w0 Fixture.ckpt1 2 10
           [("policy_b", Fixture.policy); ("notes.txt", File 7);
            ("policy_a", Fixture.policy)]).
  - reflexivity.
  - repeat (constructor; [simpl; intuition discriminate|]). constructor.
  - discriminate.
Defined.


Lemma cyclic_policy_ids (N i : Z) :
  0 < N ->
  cyclic (Config.policy_ids N) i = ("policy_" ++ str_int (i mod N))%string.
Proof.
  intros HN. unfold cyclic.
  assert (Hlen : len (Config.policy_ids N) = N)
    by (unfold len; rewrite policy_ids_length; lia).
  rewrite Hlen. unfold Config.policy_ids.
  apply (map_range_nth (fun i => ("policy_" ++ str_int i)%string)).
  apply Z.mod_pos_bound, HN.
Qed.

Lemma sorted_policy_ids (N : Z) :
  1 <= N <= 10 ->
  sorted String.ltb (Config.policy_ids N) = Config.policy_ids N.
Proof.
  intros HN.
  assert (H : N = 1 \/ N = 2 \/ N = 3 \/ N = 4 \/ N = 5 \/ N = 6
              \/ N = 7 \/ N = 8 \/ N = 9 \/ N = 10) by lia.
  repeat (destruct H as [-> | H]; [reflexivity|]). subst N. reflexivity.
Qed.

(** X6: policies saved under the names of the fallback,
    [policy_0] to [policy_{N-1}], are loaded back in the order of
    their numbers as long as there are at most ten, so that agent [i]
    gets [policy_{i mod N}] and the first N agents keep the policy
    the fallback gave them.  With eleven the order by name puts
    [policy_10] before [policy_2], and agent 2 gets [policy_10]. *)
Theorem saved_fallback_policies_reload (w : world) (p : Path) (n N : Z)
    t es :
  stat (w_fs w) (joinpath p "policies") = Ok (Dir t true es) ->
  NoDup (map fst es) ->
  Permutation (subdirectory_names es) (Config.policy_ids N) ->
  1 <= N ->
  exists f w',
    get_policy_mapping_fn (ArgPath p) n w = (Ok f, w')
    /\ (N <= 10 ->
        forall i ex, f i ex = Ok ("policy_" ++ str_int (i mod N))%string)
    /\ (N <= 10 ->
        forall i ex, 0 <= i < N -> f i ex = policy_mapping_fn i ex)
    /\ (N = 11 -> forall ex, f 2 ex = Ok "policy_10").
Proof.
  intros Hs Hnd P HN.
  assert (Hids : PolicyIDs es = sorted String.ltb (Config.policy_ids N)).
  { unfold PolicyIDs.
    apply FSFacts.sorted_names_order_independent;
      [apply subdirectory_names_NoDup, Hnd | exact P]. }
  assert (Hne : PolicyIDs es <> []).
  { rewrite Hids. intros E. apply PyFacts.sorted_nil_inv in E.
    apply (f_equal (@List.length string)) in E.
    rewrite policy_ids_length in E. simpl in E. lia. }
  destruct (get_policy_mapping_fn_Path w p n t es Hs Hnd Hne)
    as (f & Hrun & Hf).
  exists f. eexists. split; [exact Hrun|].
  assert (Hsmall : N <= 10 ->
            forall i ex, f i ex = Ok ("policy_" ++ str_int (i mod N))%string).
  { intros Hle i ex.
    rewrite Hf, Hids, sorted_policy_ids, cyclic_policy_ids by lia.
    reflexivity. }
  split; [exact Hsmall|]. split.
  - intros Hle i ex Hi. rewrite (Hsmall Hle), Z.mod_small by exact Hi.
    reflexivity.
  - intros -> ex. rewrite Hf, Hids. reflexivity.
Qed.

Lemma saved_fallback_policies_reload_witness :
  exists f w',
    get_policy_mapping_fn (ArgPath ["ckpt"]) 11 (Tree.with_saved 11)
    = (Ok f, w')
    /\ (11 <= 10 ->
        forall i ex, f i ex = Ok ("policy_" ++ str_int (i mod 11))%string)
    /\ (11 <= 10 ->
        forall i ex, 0 <= i < 11 -> f i ex = policy_mapping_fn i ex)
    /\ (11 = 11 -> forall ex, f 2 ex = Ok "policy_10").
Proof.
  apply (saved_fallback_policies_reload (Tree.with_saved 11) ["ckpt"] 11 11 0
           (Tree.saved 11)).
  - reflexivity.
  - change (map fst (Tree.saved 11)) with (Config.policy_ids 11).
    apply policy_ids_NoDup.
  - apply Permutation_refl.
  - lia.
Defined.

End MappingExtras.

(** ** The directory that [get_checkpoint_dir] returns *)

Module CheckpointExtras.

Import CheckpointFacts.

Lemma selects_last (ok : string -> bool) (n : node) (rel : list string) :
  selects ok n rel ->
  exists rel' nm, rel = rel' ++ [nm] /\ ok nm = true.
Proof.
  induction 1 as [t es nm c Hin Hok | t es nm t' r' es' rel Hin Hsel IH].
  - exists [], nm. auto.
  - destruct IH as (rel' & nm' & -> & Hok). exists (nm :: rel'), nm'. auto.
Qed.

Lemma marker_not_root (nm : string) :
  is_checkpoint_marker nm = true -> is_root nm = false.
Proof.
  intros H. destruct (is_root nm) eqn:E; [|reflexivity].
  unfold is_root in E. apply orb_true_iff in E.
  destruct E as [E | E]; apply String.eqb_eq in E; subst nm; discriminate.
Qed.

Lemma parent_snoc (q : Path) (nm : string) :
  is_root nm = false -> parent (q ++ [nm]) = q.
Proof.
  intros Hnm. destruct q as [|a [|b q]].
  - simpl. rewrite Hnm. reflexivity.
  - reflexivity.
  - change (parent ((a :: b :: q) ++ [nm]))
      with (removelast ((a :: b :: q) ++ [nm])).
    apply removelast_last.
Qed.

(** A call that returns a directory found it as the parent of a
    marker that it could examine. *)
Lemma get_checkpoint_dir_Some_inv (w : world) (search_dir : path_arg)
      (d : Path) :
  get_checkpoint_dir search_dir w = (Ok (Some d), w) ->
  exists root m t,
    search_root (w_fs w) search_dir = Ok root
    /\ In m (glob_checkpoints (w_fs w) root)
    /\ getmtime (w_fs w) m = Ok t
    /\ d = parent m.
Proof.
  rewrite get_checkpoint_dir_run, get_checkpoint_dir_try_run. simpl.
  intros H.
  destruct (search_root (w_fs w) search_dir) as [root|e] eqn:Hroot;
    [|discriminate].
  simpl in H. exists root.
  destruct (glob_checkpoints (w_fs w) root) as [|q l] eqn:Hglob;
    [discriminate|].
  set (g := fun x => rbind (getmtime (w_fs w) x) (fun k => Ok (k, x))).
  destruct (rmap g (q :: l)) as [kxs|e] eqn:Hkxs.
  - destruct (sorted_key_last (getmtime (w_fs w)) (q :: l))
      as (m & t & Hm & Ht & _ & Hrun); [discriminate | |].
    + intros x Hx.
      destruct (PyFacts.rmap_ok_inv g _ _ Hkxs x Hx) as ([k x'] & Hg).
      unfold g in Hg. destruct (getmtime (w_fs w) x); [eauto|discriminate].
    + rewrite Hrun in H. simpl in H. inversion H.
      exists m, t. auto.
  - exfalso. unfold sorted_key in H. fold g in H. rewrite Hkxs in H.
    discriminate.
Qed.

(** The directory returned, in terms of the root and the marker. *)
Lemma returned_directory (w : world) (search_dir : path_arg) (d : Path) :
  get_checkpoint_dir search_dir w = (Ok (Some d), w) ->
  exists root rel nm t,
    search_root (w_fs w) search_dir = Ok root
    /\ d = root ++ rel
    /\ is_checkpoint_marker nm = true
    /\ marker_below (w_fs w) root (rel ++ [nm])
    /\ getmtime (w_fs w) (joinpath d nm) = Ok t.
Proof.
  intros H.
  destruct (get_checkpoint_dir_Some_inv w search_dir d H)
    as (root & m & t & Hroot & Hm & Ht & ->).
  apply marker_below_glob in Hm. destruct Hm as (rel & -> & Hrel).
  destruct Hrel as (t0 & r0 & es0 & Hs & Hsel).
  destruct (selects_last _ _ _ Hsel) as (rel' & nm & -> & Hok).
  assert (Hp : parent (root ++ rel' ++ [nm]) = root ++ rel').
  { rewrite app_assoc. apply parent_snoc, marker_not_root, Hok. }
  exists root, rel', nm, t. rewrite Hp.
  repeat split; try assumption.
  - exists t0, r0, es0. auto.
  - unfold joinpath. rewrite <- app_assoc. exact Ht.
Qed.

(** X7: a directory that [get_checkpoint_dir] returns is the search
    root, after the home shorthand is expanded, or lies below it; a
    marker entry lies directly in it, and the modification time of
    that marker could be read.  A relative search root gives a
    relative result. *)
Theorem get_checkpoint_dir_below_root (w : world) (search_dir : path_arg)
    (d : Path) :
  get_checkpoint_dir search_dir w = (Ok (Some d), w) ->
  exists root rel nm t,
    search_root (w_fs w) search_dir = Ok root
    /\ d = root ++ rel
    /\ is_checkpoint_marker nm = true
    /\ marker_below (w_fs w) root (rel ++ [nm])
    /\ getmtime (w_fs w) (joinpath d nm) = Ok t.
Proof.
  intros H.
  destruct (returned_directory w search_dir d H)
    as (root & rel & nm & t & Hroot & Hd & Hnm & Hbelow & Ht).
  exists root, rel, nm, t. repeat split; assumption.
Qed.

Lemma get_checkpoint_dir_below_root_witness :
  exists root rel nm t,
    search_root Fixture.fs0 (ArgStr "~/runs") = Ok root
    /\ ["/"; "home"; "u"; "runs"; "b"; "ckpt2"] = root ++ rel
    /\ is_checkpoint_marker nm = true
    /\ marker_below Fixture.fs0 root (rel ++ [nm])
    /\ getmtime Fixture.fs0
         (joinpath ["/"; "home"; "u"; "runs"; "b"; "ckpt2"] nm)
       = Ok t.
Proof.
  apply (get_checkpoint_dir_below_root Fixture.w0 (ArgStr "~/runs")).
  reflexivity.
Defined.

Lemma distinct_NoDup (l : list string) : Tree.distinct l = true -> NoDup l.
Proof.
  induction l as [|a l IH]; simpl; intros H; [constructor|].
  apply andb_true_iff in H. destruct H as [Ha Hl].
  constructor; [|apply IH, Hl].
  intros Hin. apply negb_true_iff in Ha.
  assert (E : existsb (String.eqb a) l = true).
  { apply existsb_exists. exists a. split; [exact Hin|].
    apply String.eqb_refl. }
  congruence.
Qed.

Lemma well_formed_Dir t r es :
  Tree.well_formed (Dir t r es) = true ->
  NoDup (map fst es)
  /\ (forall nm c, In (nm, c) es ->
                   is_root nm = false /\ Tree.well_formed c = true).
Proof.
  cbn [Tree.well_formed]. intros H.
  apply andb_true_iff in H. destruct H as [H Hsub].
  apply andb_true_iff in H. destruct H as [Hd Hr].
  split; [apply distinct_NoDup, Hd|].
  intros nm c Hin. rewrite forallb_forall in Hr, Hsub. split.
  - apply negb_true_iff. apply (Hr (nm, c) Hin).
  - apply (Hsub (nm, c) Hin).
Qed.

Lemma lookup_In (es : list (string * node)) (nm : string) (c : node) :
  lookup nm es = Some c -> In (nm, c) es.
Proof.
  unfold lookup. intros H.
  destruct (find (fun e => (fst e =? nm)%string) es) as [[nm' c']|] eqn:Ef;
    [|discriminate].
  apply find_some in Ef. destruct Ef as [Hin Hnm].
  apply String.eqb_eq in Hnm. simpl in *. inversion H. subst. exact Hin.
Qed.

Lemma walk_well_formed (names : list string) :
  forall n m, Tree.well_formed n = true -> walk n names = Ok m ->
              Tree.well_formed m = true.
Proof.
  induction names as [|c names IH]; intros n m Hwf H; simpl in H.
  - inversion H. subst. exact Hwf.
  - destruct n as [t|t r es|]; try discriminate.
    destruct (lookup c es) as [n'|] eqn:El; [|discriminate].
    apply lookup_In in El.
    apply (IH n' m); [|exact H].
    apply (proj2 (well_formed_Dir _ _ _ Hwf) c n' El).
Qed.

(** In a well-formed tree the names that lead to a selected entry
    lead, without the last, to the directory that lists it. *)
Lemma selects_walk (ok : string -> bool) (n : node) (rel : list string) :
  selects ok n rel -> Tree.well_formed n = true ->
  (exists t es, walk n (removelast rel) = Ok (Dir t true es))
  /\ (forall nm rest, rel = nm :: rest -> is_root nm = false).
Proof.
  induction 1 as [t es nm c Hin Hok | t es nm t' r' es' rel Hin Hsel IH];
    intros Hwf.
  - split; [simpl; eauto|].
    intros nm' rest E. inversion E; subst.
    apply (proj2 (well_formed_Dir _ _ _ Hwf) nm' c Hin).
  - destruct (well_formed_Dir _ _ _ Hwf) as [Hnd Hsub].
    destruct (Hsub _ _ Hin) as [Hroot Hwf'].
    destruct (IH Hwf') as [(t0 & es0 & Hwalk) _].
    split.
    + destruct rel as [|nm0 rel0]; [inversion Hsel|].
      change (removelast (nm :: nm0 :: rel0))
        with (nm :: removelast (nm0 :: rel0)).
      cbn [walk]. rewrite (TreeFacts.lookup_distinct es nm _ Hnd Hin).
      eauto.
    + intros nm' rest E. inversion E; subst. exact Hroot.
Qed.

Lemma absolute_app (fs : filesystem) (p rel : list string) :
  (p = [] -> forall nm rest, rel = nm :: rest -> is_root nm = false) ->
  absolute fs (p ++ rel) = absolute fs p ++ rel.
Proof.
  intros H. destruct p as [|r p].
  - simpl. destruct rel as [|nm rest]; [rewrite app_nil_r; reflexivity|].
    simpl. rewrite (H eq_refl nm rest eq_refl). reflexivity.
  - simpl. destruct (is_root r); [reflexivity|].
    rewrite <- app_assoc. reflexivity.
Qed.

(** X8: on a filesystem whose directories list each name once, a
    directory that [get_checkpoint_dir] returns exists: [is_dir] holds
    of it. *)
Theorem get_checkpoint_dir_is_dir (w : world) (search_dir : path_arg)
    (d : Path) :
  Tree.well_formed (fs_root (w_fs w)) = true ->
  get_checkpoint_dir search_dir w = (Ok (Some d), w) ->
  is_dir (w_fs w) d = true.
Proof.
  intros Hwf H.
  destruct (returned_directory w search_dir d H)
    as (root & rel & nm & t & Hroot & -> & Hok & Hbelow & _).
  destruct Hbelow as (t0 & r0 & es0 & Hs & Hsel).
  apply TreeFacts.stat_Dir_walk in Hs.
  assert (Hwf0 : Tree.well_formed (Dir t0 r0 es0) = true)
    by (apply (walk_well_formed _ _ _ Hwf Hs)).
  destruct (selects_walk _ _ _ Hsel Hwf0) as [(t1 & es1 & Hwalk) Hhead].
  rewrite removelast_last in Hwalk.
  unfold is_dir, stat. rewrite absolute_app, TreeFacts.walk_app, Hs.
  - simpl. rewrite Hwalk. reflexivity.
  - intros _ nm0 rest E. apply (Hhead nm0 (rest ++ [nm])).
    rewrite E. reflexivity.
Qed.

Lemma get_checkpoint_dir_is_dir_witness :
  is_dir Fixture.fs0 Fixture.ckpt2 = true.
Proof.
  apply (get_checkpoint_dir_is_dir Fixture.w0 (ArgStr "runs") Fixture.ckpt2);
    reflexivity.
Defined.

End CheckpointExtras.

(** ** [can_use_gpu], [model_config] and [algorithm_config] *)

Module ConfigFacts.

Import Rllib Config NameFacts.

(** TensorFlow gave no answer: the cases of PyTorch. *)
Ltac ask_torch m :=
  let bp := fresh "bp" in
  destruct (try_import_torch m) as [[[[bp|?]]|]|?] eqn:?; simpl;
  [exists bp | exists false | exists false | exists false];
  (split; [reflexivity|]);
  (split; [intros ? (? & E & Hb); inversion E; subst; discriminate|]);
  (split; [intros _ ? (? & E & Hb); inversion E; subst; simpl in Hb;
           congruence|]);
  (split; [try reflexivity;
           intros _ Hno; exfalso; apply (Hno bp); eauto|]);
  try discriminate;
  intros ->; right; eauto.

(** The answer of [can_use_gpu], by what the frameworks do. *)
Lemma can_use_gpu_cases (m : machine) :
  exists b,
    can_use_gpu m = Done b
    /\ (forall b', tf_answers m b' -> b = b')
    /\ ((forall b', ~ tf_answers m b') ->
        forall b', torch_answers m b' -> b = b')
    /\ ((forall b', ~ tf_answers m b') ->
        (forall b', ~ torch_answers m b') -> b = false)
    /\ (b = true -> reports_gpu m).
Proof.
  unfold can_use_gpu, tf_answers, torch_answers, reports_gpu, try_return.
  destruct (try_import_tf m) as [[[[bt|et]]|]|et] eqn:Htf; simpl.
  - exists bt. split; [reflexivity|]. split; [|split; [|split]].
    + intros b' (tf & E & Hb). inversion E; subst. simpl in Hb. congruence.
    + intros Hno. exfalso. apply (Hno bt). eauto.
    + intros Hno. exfalso. apply (Hno bt). eauto.
    + intros ->. left. eauto.
  - ask_torch m.
  - ask_torch m.
  - ask_torch m.
Qed.

(** X9: [can_use_gpu] never raises.  When TensorFlow can be imported
    and answers, its answer is the result, whatever PyTorch would say;
    PyTorch is asked only when TensorFlow gives no answer; the result
    is [False] when neither answers, and [True] only when a framework
    reported a GPU. *)
Theorem can_use_gpu_answer (m : machine) :
  exists b,
    can_use_gpu m = Done b
    /\ (forall b', tf_answers m b' -> b = b')
    /\ ((forall b', ~ tf_answers m b') ->
        forall b', torch_answers m b' -> b = b')
    /\ ((forall b', ~ tf_answers m b') ->
        (forall b', ~ torch_answers m b') -> b = false)
    /\ (b = true -> reports_gpu m).
Proof.
  destruct (can_use_gpu_cases m) as (b & Hb & Htf & Htorch & Hnone & Htrue).
  exists b. repeat split; assumption.
Qed.

Lemma model_config_raises (fw : string) (lstm : bool) (cmc : dict) :
  fw <> "torch" -> lstm = true ->
  model_config fw lstm cmc = Raised NotImplementedError.
Proof.
  intros Hfw ->. unfold model_config.
  destruct (String.eqb_spec fw "torch"); [contradiction | reflexivity].
Qed.

Lemma model_config_passes_custom (fw : string) (lstm : bool) (cmc : dict)
      (md : model_dict) :
  model_config fw lstm cmc = Done md -> custom_model_config md = cmc.
Proof.
  unfold model_config.
  destruct (fw =? "torch")%string, lstm; simpl; intros H;
    inversion H; reflexivity.
Qed.

(** X10: [model_config] raises exactly when an LSTM is asked for with
    a framework other than ["torch"], and then [NotImplementedError].
    Otherwise the model is a Torch model exactly for the framework
    string ["torch"] (any other string selects [TFModel]), it is the
    LSTM model exactly when [lstm] is set, and the custom model
    configuration is handed on as given. *)
Theorem model_config_outcome (fw : string) (lstm : bool) (cmc : dict) :
  (model_config fw lstm cmc = Raised NotImplementedError
   <-> fw <> "torch" /\ lstm = true)
  /\ (forall e, model_config fw lstm cmc = Raised e
                -> e = NotImplementedError)
  /\ (forall md,
        model_config fw lstm cmc = Done md ->
        custom_model_config md = cmc
        /\ (custom_model md = TFModel <-> fw <> "torch")
        /\ (custom_model md = TorchLSTMModel <-> lstm = true)).
Proof.
  unfold model_config.
  destruct (String.eqb_spec fw "torch") as [->|Hfw]; destruct lstm; simpl;
    (split; [split; [intros H; try discriminate; auto
                    | intros [H1 H2]; congruence || reflexivity]|]);
    (split; [intros e H; congruence|]);
    intros md H; inversion H; subst; simpl;
    (split; [reflexivity|]);
    split; split; intros; congruence.
Qed.

Lemma dict_get_set_same (d : dict) (k : string) (v : object) :
  dict_get (dict_set d k v) k = Some v.
Proof.
  induction d as [|[k' v'] d IH]; simpl.
  - rewrite String.eqb_refl. reflexivity.
  - destruct (String.eqb_spec k' k) as [->|Hne]; simpl.
    + rewrite String.eqb_refl. reflexivity.
    + destruct (String.eqb_spec k' k); [contradiction | exact IH].
Qed.

Lemma dict_get_set_other (d : dict) (k k0 : string) (v : object) :
  k0 <> k -> dict_get (dict_set d k v) k0 = dict_get d k0.
Proof.
  intros Hne. induction d as [|[k' v'] d IH]; simpl.
  - destruct (String.eqb_spec k k0); [congruence | reflexivity].
  - destruct (String.eqb_spec k' k) as [->|Hk]; simpl.
    + destruct (String.eqb_spec k k0); [congruence | reflexivity].
    + destruct (String.eqb_spec k' k0); [reflexivity | exact IH].
Qed.

Lemma dict_set_keys (d : dict) (k : string) (v : object) :
  map fst (dict_set d k v)
  = if existsb (String.eqb k) (map fst d) then map fst d
    else map fst d ++ [k].
Proof.
  induction d as [|[k' v'] d IH]; simpl; [reflexivity|].
  rewrite (String.eqb_sym k k').
  destruct (String.eqb_spec k' k) as [->|Hk]; simpl; [reflexivity|].
  rewrite IH. destruct (existsb (String.eqb k) (map fst d)); reflexivity.
Qed.

Lemma can_use_gpu_total (m : machine) : exists b, can_use_gpu m = Done b.
Proof.
  unfold can_use_gpu, try_return.
  destruct (rthen (try_import_tf m) _); [eauto|].
  destruct (rthen (try_import_torch m) _); eauto.
Qed.

Lemma replay_app {config} (lib : library config)
      (l1 l2 : list builder_call) (c : config) :
  replay lib (l1 ++ l2) c = rthen (replay lib l1 c) (replay lib l2).
Proof.
  revert c. induction l1 as [|call l1 IH]; intros c; simpl; [reflexivity|].
  destruct (apply lib c call); simpl; [apply IH | reflexivity].
Qed.

Lemma replay_recorder (l calls : list builder_call) :
  replay recorder l calls = Done (calls ++ l).
Proof.
  revert calls. induction l as [|call l IH]; intros calls; simpl.
  - rewrite app_nil_r. reflexivity.
  - rewrite IH, <- app_assoc. reflexivity.
Qed.

(** A run, call by call: the world is left as it was, the mapping
    function passed on is the fallback. *)
Lemma algorithm_config_run {config} (lib : library config) (m : machine)
      (a : arguments) (w : world) :
  exists gpu,
    can_use_gpu m = Done gpu
    /\ algorithm_config lib m a w
       = (rthen (default_config lib (algo a)) (fun c =>
          rthen (replay lib (calls_before_model a gpu fallback_lambda) c)
                (fun c =>
          rthen (model_config (framework a) (lstm a) []) (fun model =>
          replay lib (calls_after_model a model (randint m 0 1000000)) c))),
          w).
Proof.
  destruct (can_use_gpu_total m) as (gpu & Hgpu). exists gpu.
  split; [exact Hgpu|].
  unfold algorithm_config, wbind, wlift, wrun. rewrite Hgpu.
  cbn [calls_before_model calls_after_model replay rthen].
  destruct (default_config lib (algo a)) as [c0|]; [|reflexivity].
  cbn [rthen].
  destruct (apply lib c0 _) as [c1|]; [|reflexivity]. cbn [rthen].
  destruct (apply lib c1 _) as [c2|]; [|reflexivity]. cbn [rthen].
  destruct (apply lib c2 _) as [c3|]; [|reflexivity]. cbn [rthen].
  destruct (apply lib c3 _) as [c4|]; [|reflexivity]. cbn [rthen].
  rewrite MappingFacts.get_policy_mapping_fn_None.
  destruct (apply lib c4 _) as [c5|]; [|reflexivity]. cbn [rthen].
  destruct (model_config (framework a) (lstm a) []) as [md|];
    [|reflexivity].
  cbn [rthen].
  destruct (apply lib c5 _) as [c6|]; [|reflexivity]. cbn [rthen].
  destruct (apply lib c6 _) as [c7|]; reflexivity.
Qed.

Lemma calls_made_run (m : machine) (a : arguments) (w : world) :
  exists gpu,
    can_use_gpu m = Done gpu
    /\ calls_made m a w
       = (rthen (model_config (framework a) (lstm a) []) (fun model =>
          Done (calls_before_model a gpu fallback_lambda
                ++ calls_after_model a model (randint m 0 1000000))), w).
Proof.
  destruct (algorithm_config_run recorder m a w) as (gpu & Hgpu & Hrun).
  exists gpu. split; [exact Hgpu|].
  unfold calls_made. rewrite Hrun. cbn [recorder default_config rthen].
  rewrite replay_recorder. cbn [rthen app].
  destruct (model_config (framework a) (lstm a) []) as [md|];
    [|reflexivity].
  cbn [rthen]. rewrite replay_recorder. reflexivity.
Qed.

(** What a completed run recorded. *)
Lemma calls_made_inv (m : machine) (a : arguments) (w w' : world)
      (calls : list builder_call) :
  calls_made m a w = (Done calls, w') ->
  w' = w
  /\ exists gpu model,
       can_use_gpu m = Done gpu
       /\ model_config (framework a) (lstm a) [] = Done model
       /\ calls = calls_before_model a gpu fallback_lambda
                  ++ calls_after_model a model (randint m 0 1000000).
Proof.
  destruct (calls_made_run m a w) as (gpu & Hgpu & ->).
  destruct (model_config (framework a) (lstm a) []) as [md|] eqn:Hmd;
    cbn [rthen]; intros H; inversion H; subst.
  split; [reflexivity|]. exists gpu, md. auto.
Qed.

(** X11: whatever the library does with the calls, [algorithm_config]
    is the default configuration of the algorithm followed by the
    seven calls that a recording library sees, in the order
    [environment], [framework], [rollouts], [resources],
    [multi_agent], [training], [debugging]; it writes nothing to
    standard output. *)
Theorem algorithm_config_replays_calls {config} (lib : library config)
    (m : machine) (a : arguments) (w w' : world)
    (calls : list builder_call) :
  calls_made m a w = (Done calls, w') ->
  w' = w
  /\ algorithm_config lib m a w
     = (rthen (default_config lib (algo a)) (replay lib calls), w)
  /\ exists ec g pols pmf md lrv vf ent seed,
       calls = [Environment (env a) ec; Framework (framework a);
                Rollouts (num_workers a); Resources g;
                MultiAgent pols pmf; Training md lrv vf ent;
                Debugging seed].
Proof.
  intros H.
  destruct (calls_made_inv m a w w' calls H)
    as (-> & gpu & md & Hgpu & Hmd & ->).
  split; [reflexivity|]. split.
  - destruct (algorithm_config_run lib m a w) as (gpu' & Hgpu' & ->).
    assert (gpu' = gpu) by congruence. subst gpu'.
    rewrite Hmd. cbn [rthen].
    destruct (default_config lib (algo a)) as [c0|]; [|reflexivity].
    cbn [rthen]. rewrite replay_app. reflexivity.
  - repeat eexists.
Qed.

Lemma algorithm_config_replays_calls_witness :
  exists calls,
    calls_made torch_gpu defaults Fixture.w0 = (Done calls, Fixture.w0)
    /\ algorithm_config counter torch_gpu defaults Fixture.w0
       = (rthen (default_config counter (algo defaults))
                (replay counter calls), Fixture.w0)
    /\ algorithm_config counter torch_gpu defaults Fixture.w0
       = (Done 7%nat, Fixture.w0).
Proof.
  eexists. split; [reflexivity|]. split; [|reflexivity].
  apply (algorithm_config_replays_calls counter torch_gpu defaults
           Fixture.w0 Fixture.w0).
  reflexivity.
Defined.

(** Looking for a call among those of a completed run. *)
Ltac find_call H :=
  cbn [calls_before_model calls_after_model app In] in H;
  repeat (destruct H as [H | H]; [try discriminate H|]);
  try contradiction.

(** X12: the [env_config] handed to [environment] has ["agents"] set
    to [num_agents], also when the caller's [env_config] has an
    ["agents"] entry of its own, and has every other key as the
    caller gave it. *)
Theorem env_config_has_agents (m : machine) (a : arguments) (w w' : world)
    (calls : list builder_call) (e : string) (ec : dict) :
  calls_made m a w = (Done calls, w') ->
  In (Environment e ec) calls ->
  e = env a
  /\ dict_get ec "agents" = Some (OInt (num_agents a))
  /\ (forall k, k <> "agents" -> dict_get ec k = dict_get (env_config a) k)
  /\ (NoDup (map fst (env_config a)) -> NoDup (map fst ec)).
Proof.
  intros H Hin.
  destruct (calls_made_inv m a w w' calls H)
    as (_ & gpu & md & _ & _ & ->).
  find_call Hin. inversion Hin; subst.
  split; [reflexivity|]. split; [apply dict_get_set_same|].
  split; [intros k Hk; apply dict_get_set_other, Hk|].
  intros Hnd. rewrite dict_set_keys.
  destruct (existsb (String.eqb "agents") (map fst (env_config a))) eqn:E;
    [exact Hnd|].
  apply NoDup_app; [exact Hnd | repeat constructor; intros [] |].
  intros k Hk [<- | []].
  assert (E' : existsb (String.eqb "agents") (map fst (env_config a)) = true).
  { apply existsb_exists. exists "agents". split; [exact Hk | reflexivity]. }
  congruence.
Qed.

Lemma env_config_has_agents_witness :
  let a := {| algo := "PPO"; env := "MultiGrid-Empty-8x8-v0";
              env_config := [("size", OInt 8); ("agents", OInt 5)];
              num_agents := 3; framework := "torch"; lstm := false;
              num_workers := 0; num_gpus := 0; lr := None; more := [] |} in
  let ec := [("size", OInt 8); ("agents", OInt 3)] in
  env a = env a
  /\ dict_get ec "agents" = Some (OInt 3)
  /\ (forall k, k <> "agents" -> dict_get ec k = dict_get (env_config a) k)
  /\ (NoDup (map fst (env_config a)) -> NoDup (map fst ec)).
Proof.
  intros a ec.
  eapply (env_config_has_agents torch_gpu a Fixture.w0 Fixture.w0).
  - reflexivity.
  - left. reflexivity.
Defined.



(** X14: the number of GPUs handed to [resources] is the number asked
    for or 0; it is 0 whenever no framework reported a GPU, and also
    whenever TensorFlow is installed and reports none, even if
    PyTorch would report one. *)
Theorem resources_gated_by_gpu (m : machine) (a : arguments) (w w' : world)
    (calls : list builder_call) (g : Z) :
  calls_made m a w = (Done calls, w') ->
  In (Resources g) calls ->
  (g = num_gpus a \/ g = 0)
  /\ (g <> 0 -> reports_gpu m)
  /\ (tf_answers m false -> g = 0)
  /\ (reports_gpu m -> (forall b, ~ tf_answers m b) -> g = num_gpus a).
Proof.
  intros H Hin.
  destruct (calls_made_inv m a w w' calls H)
    as (_ & gpu & md & Hgpu & _ & ->).
  find_call Hin. inversion Hin; subst. clear Hin.
  destruct (can_use_gpu_cases m)
    as (b & Hb & Htf & Htorch & Hnone & Htrue).
  assert (b = gpu) by congruence. subst b.
  split; [destruct gpu; auto|]. split; [|split].
  - intros Hg. apply Htrue. destruct gpu; [reflexivity | congruence].
  - intros Hfalse. rewrite (Htf false Hfalse). reflexivity.
  - intros [Hrep | Hrep] Hno.
    + exfalso. apply (Hno true Hrep).
    + rewrite (Htorch Hno true Hrep). reflexivity.
Qed.

Lemma resources_gated_by_gpu_witness :
  let a := {| algo := "PPO"; env := "MultiGrid-Empty-8x8-v0";
              env_config := []; num_agents := 2; framework := "torch";
              lstm := false; num_workers := 0; num_gpus := 1;
              lr := None; more := [] |} in
  (0 = num_gpus a \/ 0 = 0)
  /\ (0 <> 0 -> reports_gpu tf_cpu_torch_gpu)
  /\ (tf_answers tf_cpu_torch_gpu false -> 0 = 0)
  /\ (reports_gpu tf_cpu_torch_gpu ->
      (forall b, ~ tf_answers tf_cpu_torch_gpu b) -> 0 = num_gpus a).
Proof.
  intros a.
  eapply (resources_gated_by_gpu tf_cpu_torch_gpu a Fixture.w0 Fixture.w0).
  - reflexivity.
  - do 3 right. left. reflexivity.
Defined.

(** X15: the learning rate reaches [training] only when it is given
    and not zero: [None] and a rate of zero both become
    [NotProvided].  The model handed to [training] never carries a
    custom model configuration. *)
Theorem training_learning_rate (m : machine) (a : arguments) (w w' : world)
    (calls : list builder_call) (md : model_dict) (lrv : lr_arg)
    (vf ent : pyfloat) :
  calls_made m a w = (Done calls, w') ->
  In (Training md lrv vf ent) calls ->
  (lrv = NotProvided
   <-> lr a = None \/ exists x, lr a = Some x /\ numerator x = 0)
  /\ (forall x, lrv = Lr x <-> lr a = Some x /\ numerator x <> 0)
  /\ model_config (framework a) (lstm a) [] = Done md
  /\ custom_model_config md = [].
Proof.
  intros H Hin.
  destruct (calls_made_inv m a w w' calls H)
    as (_ & gpu & md' & _ & Hmd & ->).
  find_call Hin. inversion Hin; subst. clear Hin.
  unfold lr_or_NotProvided, float_truth.
  split; [|split; [|split; [exact Hmd|]]].
  - destruct (lr a) as [x|]; [|split; auto].
    destruct (Z.eqb_spec (numerator x) 0) as [E|E]; simpl; split.
    + intros _. right. eauto.
    + reflexivity.
    + discriminate.
    + intros [? | (x' & Hx & Hz)]; [discriminate|].
      inversion Hx; subst. contradiction.
  - intros x0. destruct (lr a) as [x|]; [|split; [|intros [? _]];
                                           discriminate].
    destruct (Z.eqb_spec (numerator x) 0) as [E|E]; simpl; split.
    + discriminate.
    + intros [Hx Hz]. inversion Hx; subst. contradiction.
    + intros Hx. inversion Hx; subst. auto.
    + intros [Hx _]. inversion Hx. reflexivity.
  - apply (model_config_passes_custom _ _ _ _ Hmd).
Qed.

Lemma training_learning_rate_witness :
  let zero := {| numerator := 0; denominator := 1 |} in
  let a := {| algo := "PPO"; env := "MultiGrid-Empty-8x8-v0";
              env_config := []; num_agents := 2; framework := "torch";
              lstm := false; num_workers := 0; num_gpus := 0;
              lr := Some zero; more := [] |} in
  exists md,
    (NotProvided = NotProvided
     <-> lr a = None \/ exists x, lr a = Some x /\ numerator x = 0)
    /\ (forall x, NotProvided = Lr x <-> lr a = Some x /\ numerator x <> 0)
    /\ model_config (framework a) (lstm a) [] = Done md
    /\ custom_model_config md = [].
Proof.
  intros zero a. eexists.
  eapply (training_learning_rate torch_gpu a Fixture.w0 Fixture.w0).
  - reflexivity.
  - do 5 right. left. reflexivity.
Defined.

(** X16: asking for an LSTM with a framework other than ["torch"]
    never gives a configuration, whatever the library: the call
    raises, [NotImplementedError] unless the library raised first,
    and writes nothing. *)
Theorem algorithm_config_lstm_needs_torch {config} (lib : library config)
    (m : machine) (a : arguments) (w : world) :
  framework a <> "torch" -> lstm a = true ->
  (exists e, algorithm_config lib m a w = (Raised e, w))
  /\ (forall gpu c0 c5,
        can_use_gpu m = Done gpu ->
        default_config lib (algo a) = Done c0 ->
        replay lib (calls_before_model a gpu fallback_lambda) c0 = Done c5 ->
        algorithm_config lib m a w = (Raised NotImplementedError, w))
  /\ calls_made m a w = (Raised NotImplementedError, w).
Proof.
  intros Hfw Hlstm.
  assert (Hmd : model_config (framework a) (lstm a) []
                = Raised NotImplementedError)
    by (apply model_config_raises; assumption).
  split; [|split].
  - destruct (algorithm_config_run lib m a w) as (gpu & _ & ->).
    rewrite Hmd.
    destruct (default_config lib (algo a)) as [c0|e]; cbn [rthen]; [|eauto].
    destruct (replay lib _ c0) as [c5|e]; cbn [rthen]; eauto.
  - intros gpu c0 c5 Hgpu H0 H5.
    destruct (algorithm_config_run lib m a w) as (gpu' & Hgpu' & ->).
    assert (gpu' = gpu) by congruence. subst gpu'.
    rewrite Hmd, H0. cbn [rthen]. rewrite H5. reflexivity.
  - destruct (calls_made_run m a w) as (gpu & _ & ->).
    rewrite Hmd. reflexivity.
Qed.

Lemma algorithm_config_lstm_needs_torch_witness :
  let a := {| algo := "PPO"; env := "MultiGrid-Empty-8x8-v0";
              env_config := []; num_agents := 2; framework := "tf2";
              lstm := true; num_workers := 0; num_gpus := 0;
              lr := None; more := [] |} in
  algorithm_config counter torch_gpu a Fixture.w0
  = (Raised NotImplementedError, Fixture.w0).
Proof.
  intros a.
  apply (proj1 (proj2 (algorithm_config_lstm_needs_torch counter torch_gpu a
                         Fixture.w0 ltac:(discriminate) eq_refl))
           true 0%nat 5%nat); reflexivity.
Defined.

End ConfigFacts.

(** * Where the specification says more than the code does *)

(** ** A marker whose modification time cannot be read *)

Module NewestCorrection.


End NewestCorrection.

(** ** Agent identifiers beyond the conversion limit *)

Module LimitClaims.

Lemma format_int_within (limit i : Z) :
  limit <= 0 \/ Z.abs i < 10 ^ limit ->
  Interpreter.format_int limit i = Ok (str_int i).
Proof.
  unfold Interpreter.format_int, Interpreter.more_digits_than. intros H.
  destruct (Z.ltb_spec 0 limit) as [Hl|Hl]; [|reflexivity].
  destruct (Z.leb_spec (10 ^ limit) (Z.abs i)) as [Hi|Hi]; [lia|].
  reflexivity.
Qed.

Lemma format_int_beyond (limit i : Z) :
  0 < limit -> 10 ^ limit <= Z.abs i ->
  Interpreter.format_int limit i = Raise ValueError.
Proof.
  unfold Interpreter.format_int, Interpreter.more_digits_than. intros Hl Hi.
  apply Z.ltb_lt in Hl. apply Z.leb_le in Hi. rewrite Hl, Hi. reflexivity.
Qed.

Lemma format_int_cases (limit i : Z) :
  Interpreter.format_int limit i = Ok (str_int i)
  \/ (Interpreter.format_int limit i = Raise ValueError
      /\ 0 < limit /\ 10 ^ limit <= Z.abs i).
Proof.
  destruct (Z.ltb_spec 0 limit) as [Hl|Hl].
  - destruct (Z.leb_spec (10 ^ limit) (Z.abs i)) as [Hi|Hi].
    + right. split; [apply format_int_beyond; assumption | auto].
    + left. apply format_int_within. auto.
  - left. apply format_int_within. auto.
Qed.

(** With the limit turned off the function is the one embedded
    above, and so is the module-level function. *)
Lemma limit_off (cd : path_arg) (n : Z) (w : world) :
  Interpreter.get_policy_mapping_fn 0 cd n w = get_policy_mapping_fn cd n w.
Proof. reflexivity. Qed.

Lemma limit_off_policy_mapping_fn (i : Z) (ex : extra) :
  Interpreter.policy_mapping_fn 0 i ex = policy_mapping_fn i ex.
Proof. reflexivity. Qed.

(** Under any limit the fallback is, as a function, the module-level
    function, also where both raise. *)
Lemma fallback_is_policy_mapping_fn_under (limit i : Z) (ex ex' : extra) :
  Interpreter.fallback_lambda limit i ex
  = Interpreter.policy_mapping_fn limit i ex'.
Proof. reflexivity. Qed.

(** [print] stops at an integer beyond the limit, with the text before
    it written. *)
Lemma print_beyond_limit (limit i : Z) (pid : string) (w : world) :
  0 < limit -> 10 ^ limit <= Z.abs i ->
  Interpreter.print limit
    [Interpreter.PStr "Agent ID:"; Interpreter.PInt i;
     Interpreter.PStr "Policy ID:"; Interpreter.PStr pid] w
  = (Raise ValueError, printed w ["Agent ID: "]).
Proof.
  intros Hl Hi. unfold Interpreter.print.
  cbn [Interpreter.write_items Interpreter.to_text].
  rewrite (format_int_beyond limit i Hl Hi). reflexivity.
Qed.

(** How the [try] block ends when it does not raise: with the closure
    over a list of policies that is not empty unless there is no
    agent to report. *)
Lemma try_returns_closure (limit : Z) (cd : path_arg) (n : Z)
      (w w' : world) (f : mapping_fn) :
  Interpreter.get_policy_mapping_fn_try limit cd n w = (Ok f, w') ->
  exists ps, f = policy_mapping_fn_closure ps /\ (0 < n -> ps <> []).
Proof.
  unfold Interpreter.get_policy_mapping_fn_try, bind at 1.
  rewrite MappingFacts.policies_of_run.
  destruct (rbind (truediv cd "policies") _) as [ps|e]; [|discriminate].
  unfold bind at 1.
  destruct (Interpreter.print limit _ w) as [[u|e] w1]; [|discriminate].
  unfold bind at 1.
  destruct (for_each (range n) _ w1) as [[u'|e] w2] eqn:Hloop;
    [|discriminate].
  unfold ret. intros H. inversion H; subst.
  exists ps. split; [reflexivity|].
  intros Hn ->. destruct (PyFacts.range_pos n Hn) as (tl & Hr).
  rewrite Hr in Hloop. cbn [for_each] in Hloop.
  unfold bind at 1 in Hloop. unfold bind at 1 in Hloop.
  unfold lift at 1 in Hloop.
  rewrite MappingFacts.closure_nil in Hloop. discriminate.
Qed.

(** C6, as stated, fails on an interpreter with the default limit of
    4300 digits: without a checkpoint directory and with one agent,
    the function returned raises [ValueError] for the non-negative
    agent identifier 10^4300. *)
Lemma mapping_total_counterexample :
  exists f,
    Interpreter.get_policy_mapping_fn Interpreter.default_max_str_digits
      ArgNone 1 Fixture.w0
    = (Ok f, Fixture.w0)
    /\ 0 <= 10 ^ 4300
    /\ f (10 ^ 4300) no_extra = Raise ValueError
    /\ ~ exists pid, f (10 ^ 4300) no_extra = Ok pid.
Proof.
  exists (Interpreter.fallback_lambda Interpreter.default_max_str_digits).
  assert (Hpos : 0 <= 10 ^ 4300) by (apply Z.pow_nonneg; lia).
  assert (Hf : Interpreter.fallback_lambda Interpreter.default_max_str_digits
                 (10 ^ 4300) no_extra = Raise ValueError).
  { unfold Interpreter.fallback_lambda, Interpreter.default_max_str_digits.
    rewrite format_int_beyond; [reflexivity | lia |].
    rewrite Z.abs_eq by exact Hpos. apply Z.le_refl. }
  split; [reflexivity|]. split; [exact Hpos|]. split; [exact Hf|].
  intros (pid & Hpid). rewrite Hf in Hpid. discriminate.
Qed.

(** C6, as amended: for every checkpoint directory argument, every
    positive number of agents and every setting of the conversion
    limit, [get_policy_mapping_fn] returns a function that yields a
    policy identifier, without raising, for every non-negative
    [agent_id] of no more decimal digits than the limit (for every
    non-negative [agent_id] when the limit is off), also beyond the
    number of agents.  For a non-negative [agent_id] beyond the limit
    it either does the same or raises [ValueError]. *)
Theorem mapping_total_within_limit (limit : Z) (w : world) (cd : path_arg)
    (n : Z) :
  1 <= n ->
  exists f w',
    Interpreter.get_policy_mapping_fn limit cd n w = (Ok f, w')
    /\ (forall i ex,
          0 <= i -> limit <= 0 \/ i < 10 ^ limit ->
          exists pid, f i ex = Ok pid)
    /\ (forall i ex,
          0 <= i ->
          (exists pid, f i ex = Ok pid)
          \/ (f i ex = Raise ValueError /\ 0 < limit /\ 10 ^ limit <= i)).
Proof.
  intros Hn. unfold Interpreter.get_policy_mapping_fn, try_except.
  destruct (Interpreter.get_policy_mapping_fn_try limit cd n w)
    as [[f|e] w'] eqn:Htry.
  - destruct (try_returns_closure _ _ _ _ _ _ Htry) as (ps & -> & Hps).
    exists (policy_mapping_fn_closure ps), w'.
    split; [reflexivity|].
    assert (Hne : ps <> []) by (apply Hps; lia).
    split; [intros i ex _ _ | intros i ex _; left]; eexists;
      apply MappingFacts.closure_cyclic, Hne.
  - exists (Interpreter.fallback_lambda limit), w'.
    split; [reflexivity|]. unfold Interpreter.fallback_lambda. split.
    + intros i ex Hi Hlim. rewrite format_int_within; [simpl; eauto|].
      rewrite Z.abs_eq by exact Hi. exact Hlim.
    + intros i ex Hi.
      destruct (format_int_cases limit i) as [-> | (-> & Hl & Hb)].
      * left. simpl. eauto.
      * right. rewrite Z.abs_eq in Hb by exact Hi. auto.
Qed.

Lemma mapping_total_within_limit_witness :
  exists f w',
    Interpreter.get_policy_mapping_fn 4300 (ArgPath Fixture.ckpt2) 1
      Fixture.w0
    = (Ok f, w')
    /\ (forall i ex,
          0 <= i -> 4300 <= 0 \/ i < 10 ^ 4300 ->
          exists pid, f i ex = Ok pid)
    /\ (forall i ex,
          0 <= i ->
          (exists pid, f i ex = Ok pid)
          \/ (f i ex = Raise ValueError /\ 0 < 4300 /\ 10 ^ 4300 <= i)).
Proof.
  apply (mapping_total_within_limit 4300 Fixture.w0
           (ArgPath Fixture.ckpt2) 1).
  lia.
Defined.

End LimitClaims.
